(** * Dr3 frontend: the chat component of [src/App.tsx]

    A shallow embedding of the React component [App]: its message list,
    the submission flow of [handleSubmit], the wire projection
    [formatConversationHistory], and the voice-capture controller built
    around the browser's speech-recognition object and two timers.

    Conventions of the embedding.
    - A JavaScript string is the list of its UTF-16 code units.
    - [Date.now()] is a parameter [now : Z] of the operation that reads it.
    - Every piece of React state ([useState]) and every ref ([useRef]) is
      a field of [State]; a handler is a function from [State] to a new
      [State] and the list of outside calls it made ([Effect]).
    - What the platform decides (does [start()] throw, how does the
      request settle) is an explicit argument of the handler.
    - A closure created during a render sees the state values of THAT
      render.  The only state value the long-lived callbacks read is
      [isRecording]; the value they captured is carried explicitly
      (see [Handlers] and [Timer]).  Handlers bound in the JSX
      ([handleSubmit], [toggleRecording], [resetConversation]) are those
      of the latest render and so see the current state.
    - Not embedded: rendering, scrolling, console output, [formatTime].
      [handleCopy] and [copiedId] touch nothing else and are embedded
      on their own in module [Copy]. *)

From Stdlib Require Import ZArith String Ascii DecimalString.
From stdpp Require Import base option list gmap.

Local Open Scope Z_scope.

(** ** JavaScript strings *)

Module JS.

Definition jsstring : Type := list N.

(** A literal of the source, as code units (the literals of the
    component are ASCII). *)
Definition lit (s : string) : jsstring :=
  map N_of_ascii (list_ascii_of_string s).

(** ECMAScript WhiteSpace and LineTerminator code points, the set that
    [String.prototype.trim] strips. *)
Definition isWhiteSpace (c : N) : bool :=
  ((c =? 9) || (c =? 10) || (c =? 11) || (c =? 12) || (c =? 13)
   || (c =? 32) || (c =? 160) || (c =? 5760)
   || ((8192 <=? c) && (c <=? 8202))
   || (c =? 8232) || (c =? 8233) || (c =? 8239) || (c =? 8287)
   || (c =? 12288) || (c =? 65279))%N.

Fixpoint trimStart (s : jsstring) : jsstring :=
  match s with
  | [] => []
  | c :: r => if isWhiteSpace c then trimStart r else s
  end.

Definition trimEnd (s : jsstring) : jsstring := rev (trimStart (rev s)).

Definition trim (s : jsstring) : jsstring := trimEnd (trimStart s).

(** Truthiness of a string: only the empty string is falsy. *)
Definition truthy (s : jsstring) : bool :=
  match s with [] => false | _ :: _ => true end.

(** [a || b] where [a] is a possibly absent string property. *)
Definition or_else (a : option jsstring) (b : jsstring) : jsstring :=
  match a with
  | Some s => if truthy s then s else b
  | None => b
  end.

(** [n.toString()] for a non-negative integer time stamp. *)
Definition toString (n : Z) : jsstring :=
  lit (NilZero.string_of_int (Z.to_int n)).

(** [Array.prototype.join(sep)]. *)
Fixpoint join (sep : jsstring) (parts : list jsstring) : jsstring :=
  match parts with
  | [] => []
  | [p] => p
  | p :: rest => p ++ sep ++ join sep rest
  end.

End JS.

Import JS.

(** ** Data model *)

Inductive Sender := user | ai.

Record Message := mkMessage {
  id : jsstring;
  content : jsstring;
  sender : Sender;
  timestamp : Z
}.

Inductive Role := role_user | role_assistant.

(** [interface ConversationMessage { role?; content; id? }] *)
Record ConversationMessage := mkConversationMessage {
  role : option Role;
  cm_content : jsstring;
  cm_id : option jsstring
}.

(** Body of the POST request built in [handleSubmit]. *)
Record ChatRequest := mkChatRequest {
  req_message : jsstring;
  req_conversation : list ConversationMessage
}.

(** How the awaited request of [handleSubmit] settles. *)
Record ResponseData := mkResponseData {
  data_id : option jsstring;       (* [data.id], [None] when absent *)
  data_message : option jsstring   (* [data.message], [None] when absent *)
}.

Inductive BodyOutcome :=
| BodyRejected                     (* [response.json()] rejects *)
| BodyParsed (data : ResponseData).

Inductive FetchOutcome :=
| FetchRejected                    (* [fetch] rejects: a thrown exception *)
| Response (ok : bool) (body : BodyOutcome).

Definition couldnt_process : jsstring :=
  lit "I apologize, but I couldn't process your dream at the moment. Please try again.".

Definition trouble_connecting : jsstring :=
  lit "I apologize, but I'm having trouble connecting to the server. Please try again later.".

Definition formatConversationHistory (messages : list Message)
  : list ConversationMessage :=
  map (fun msg =>
         match sender msg with
         | user => mkConversationMessage (Some role_user) (content msg) None
         | ai => mkConversationMessage (Some role_assistant) (content msg)
                                       (Some (id msg))
         end) messages.

(** ** Component state *)

(** The event handlers installed on the recognition object by
    [initializeSpeechRecognition] are closures of the render that ran
    it; [closed_isRecording] is the [isRecording] constant of that
    render, the only state value those handlers (and the timer callbacks
    they create) read.  Everything else they touch is a ref or a state
    setter.  [onstart] calls the [startSilenceDetection] of the same
    render, so the interval callback sees the same constant, and so does
    the timeout callback written inside [onerror]. *)
Record Handlers := mkHandlers { closed_isRecording : bool }.

Inductive TimerKind :=
| SilencePoll      (* the [setInterval] callback of [startSilenceDetection] *)
| RetryRestart.    (* the [setTimeout] callback of [onerror] *)

(** An entry of the browser's timer table. *)
Record Timer := mkTimer {
  kind : TimerKind;
  timer_isRecording : bool;   (* [isRecording] as the callback closed over it *)
  due : Z                     (* earliest time of the next run *)
}.

Record State := mkState {
  messages : list Message;
  messages_identity : N;      (* which array object [messages] is *)
  input : jsstring;
  isLoading : bool;
  isRecording : bool;
  isSpeechSupported : bool;
  recognitionRef : option Handlers;
  retryTimeoutRef : option positive;
  silenceTimeoutRef : option positive;
  lastSoundTimestampRef : Z;
  timers : gmap positive Timer;
  next_timer : positive;      (* the id the next [setTimeout]/[setInterval] returns *)
  storage : option (list Message)   (* [localStorage] under key 'conversation' *)
}.

(** Calls that leave the component. *)
Inductive Effect :=
| Alert (text : jsstring)
| Fetch (body : ChatRequest)
| RecognitionStart
| RecognitionStop.

Section Setters.
Variable st : State.

Definition with_messages (v : list Message) (n : N) : State :=
  mkState v n (input st) (isLoading st) (isRecording st)
    (isSpeechSupported st) (recognitionRef st) (retryTimeoutRef st)
    (silenceTimeoutRef st) (lastSoundTimestampRef st) (timers st)
    (next_timer st) (storage st).

Definition with_input (v : jsstring) : State :=
  mkState (messages st) (messages_identity st) v (isLoading st)
    (isRecording st) (isSpeechSupported st) (recognitionRef st)
    (retryTimeoutRef st) (silenceTimeoutRef st) (lastSoundTimestampRef st)
    (timers st) (next_timer st) (storage st).

Definition with_isLoading (v : bool) : State :=
  mkState (messages st) (messages_identity st) (input st) v
    (isRecording st) (isSpeechSupported st) (recognitionRef st)
    (retryTimeoutRef st) (silenceTimeoutRef st) (lastSoundTimestampRef st)
    (timers st) (next_timer st) (storage st).

Definition with_isRecording (v : bool) : State :=
  mkState (messages st) (messages_identity st) (input st) (isLoading st)
    v (isSpeechSupported st) (recognitionRef st)
    (retryTimeoutRef st) (silenceTimeoutRef st) (lastSoundTimestampRef st)
    (timers st) (next_timer st) (storage st).

Definition with_isSpeechSupported (v : bool) : State :=
  mkState (messages st) (messages_identity st) (input st) (isLoading st)
    (isRecording st) v (recognitionRef st)
    (retryTimeoutRef st) (silenceTimeoutRef st) (lastSoundTimestampRef st)
    (timers st) (next_timer st) (storage st).

Definition with_recognitionRef (v : option Handlers) : State :=
  mkState (messages st) (messages_identity st) (input st) (isLoading st)
    (isRecording st) (isSpeechSupported st) v
    (retryTimeoutRef st) (silenceTimeoutRef st) (lastSoundTimestampRef st)
    (timers st) (next_timer st) (storage st).

Definition with_retryTimeoutRef (v : option positive) : State :=
  mkState (messages st) (messages_identity st) (input st) (isLoading st)
    (isRecording st) (isSpeechSupported st) (recognitionRef st)
    v (silenceTimeoutRef st) (lastSoundTimestampRef st)
    (timers st) (next_timer st) (storage st).

Definition with_silenceTimeoutRef (v : option positive) : State :=
  mkState (messages st) (messages_identity st) (input st) (isLoading st)
    (isRecording st) (isSpeechSupported st) (recognitionRef st)
    (retryTimeoutRef st) v (lastSoundTimestampRef st)
    (timers st) (next_timer st) (storage st).

Definition with_lastSoundTimestampRef (v : Z) : State :=
  mkState (messages st) (messages_identity st) (input st) (isLoading st)
    (isRecording st) (isSpeechSupported st) (recognitionRef st)
    (retryTimeoutRef st) (silenceTimeoutRef st) v
    (timers st) (next_timer st) (storage st).

Definition with_timers (v : gmap positive Timer) (n : positive) : State :=
  mkState (messages st) (messages_identity st) (input st) (isLoading st)
    (isRecording st) (isSpeechSupported st) (recognitionRef st)
    (retryTimeoutRef st) (silenceTimeoutRef st) (lastSoundTimestampRef st)
    v n (storage st).

Definition with_storage (v : option (list Message)) : State :=
  mkState (messages st) (messages_identity st) (input st) (isLoading st)
    (isRecording st) (isSpeechSupported st) (recognitionRef st)
    (retryTimeoutRef st) (silenceTimeoutRef st) (lastSoundTimestampRef st)
    (timers st) (next_timer st) v.
End Setters.

(** ** Handlers as commands

    A command runs on the current state and returns the new state with
    the outside calls made, in order. *)

Definition Cmd : Type := State -> State * list Effect.

Definition skip : Cmd := fun st => (st, []).

Definition seq (a b : Cmd) : Cmd :=
  fun st => let '(s1, e1) := a st in
            let '(s2, e2) := b s1 in
            (s2, e1 ++ e2).

Definition modify (f : State -> State) : Cmd := fun st => (f st, []).

Definition emit (e : Effect) : Cmd := fun st => (st, [e]).

(** Read a ref (or anything else that is looked up when the statement
    runs, as opposed to a constant of the enclosing render). *)
Definition read {A} (f : State -> A) (k : A -> Cmd) : Cmd :=
  fun st => k (f st) st.

Definition when (c : bool) (a : Cmd) : Cmd := if c then a else skip.

Declare Scope cmd_scope.
Delimit Scope cmd_scope with cmd.
Bind Scope cmd_scope with Cmd.
Notation "a ;; b" := (seq a b)
  (at level 100, b at level 200, right associativity) : cmd_scope.
Local Open Scope cmd_scope.

(** State setters of [useState]. *)
Definition setMessages (f : list Message -> list Message) : Cmd :=
  modify (fun st => with_messages st (f (messages st))
                                  (N.succ (messages_identity st))).
Definition setInput (v : jsstring) : Cmd := modify (fun st => with_input st v).
Definition setIsLoading (v : bool) : Cmd := modify (fun st => with_isLoading st v).
Definition setIsRecording (v : bool) : Cmd := modify (fun st => with_isRecording st v).
Definition setIsSpeechSupported (v : bool) : Cmd :=
  modify (fun st => with_isSpeechSupported st v).

(** Browser timer primitives. *)
Definition clearTimer (i : positive) : Cmd :=
  modify (fun st => with_timers st (delete i (timers st)) (next_timer st)).

Definition setTimer (t : Timer) (k : positive -> Cmd) : Cmd :=
  fun st =>
    let i := next_timer st in
    k i (with_timers st (<[i := t]> (timers st)) (Pos.succ i)).

(** ** Voice capture controller *)

Definition stopRecording : Cmd :=
  read silenceTimeoutRef (fun r =>
    match r with Some i => clearTimer i | None => skip end) ;;
  read retryTimeoutRef (fun r =>
    match r with
    | Some i => clearTimer i ;; modify (fun st => with_retryTimeoutRef st None)
    | None => skip
    end) ;;
  (* try { recognitionRef.current?.stop() } catch { log } *)
  read recognitionRef (fun r =>
    match r with Some _ => emit RecognitionStop | None => skip end) ;;
  setIsRecording false.

(** [startSilenceDetection] of a render whose [isRecording] is
    [isRecording_r]. *)
Definition startSilenceDetection (isRecording_r : bool) (now : Z) : Cmd :=
  read silenceTimeoutRef (fun r =>
    match r with Some i => clearTimer i | None => skip end) ;;
  setTimer (mkTimer SilencePoll isRecording_r (now + 500)) (fun i =>
    modify (fun st => with_silenceTimeoutRef st (Some i))).

(** The interval callback created by [startSilenceDetection]. *)
Definition silencePoll (isRecording_r : bool) (now : Z) : Cmd :=
  read lastSoundTimestampRef (fun last =>
    let silenceDuration := now - last in
    when ((3000 <=? silenceDuration) && isRecording_r) stopRecording).

(** What the [try] block of the restart callback runs into. *)
Inductive RestartResult := restart_ok | stop_throws | start_throws.

(** The timeout callback created by [onerror] for a 'network' error. *)
Definition retryRestart (isRecording_r : bool) (r : RestartResult) : Cmd :=
  when isRecording_r
    match r with
    | restart_ok => emit RecognitionStop ;; emit RecognitionStart
    | stop_throws => emit RecognitionStop ;; stopRecording
    | start_throws => emit RecognitionStop ;; emit RecognitionStart ;; stopRecording
    end.

Definition onstart (h : Handlers) (now : Z) : Cmd :=
  setIsRecording true ;;
  modify (fun st => with_lastSoundTimestampRef st now) ;;
  startSilenceDetection (closed_isRecording h) now.

(** [results] holds [result[0].transcript] of every entry of
    [event.results]. *)
Definition onresult (now : Z) (results : list jsstring) : Cmd :=
  setInput (join (lit " ") results) ;;
  modify (fun st => with_lastSoundTimestampRef st now).

Definition onaudiostart (now : Z) : Cmd :=
  modify (fun st => with_lastSoundTimestampRef st now).

Definition onaudioend (now : Z) : Cmd :=
  read lastSoundTimestampRef (fun last =>
    let silenceDuration := now - last in
    when (3000 <=? silenceDuration) stopRecording).

Definition allow_microphone : jsstring :=
  lit "Please allow microphone access to use voice input.".

Definition onerror (h : Handlers) (now : Z) (error : jsstring) : Cmd :=
  if bool_decide (error = lit "not-allowed") then
    emit (Alert allow_microphone) ;;
    setIsSpeechSupported false
  else if bool_decide (error = lit "network") then
    read retryTimeoutRef (fun r =>
      match r with Some i => clearTimer i | None => skip end) ;;
    setTimer (mkTimer RetryRestart (closed_isRecording h) (now + 1000)) (fun i =>
      modify (fun st => with_retryTimeoutRef st (Some i)))
  else
    stopRecording.

(** [onerror] as the earlier copy of the component has it
    ([src/unnamed/part_000], lines 90-113): no 'not-allowed' case. *)
Definition onerror_part_000 (h : Handlers) (now : Z) (error : jsstring) : Cmd :=
  if bool_decide (error = lit "network") then
    read retryTimeoutRef (fun r =>
      match r with Some i => clearTimer i | None => skip end) ;;
    setTimer (mkTimer RetryRestart (closed_isRecording h) (now + 1000)) (fun i =>
      modify (fun st => with_retryTimeoutRef st (Some i)))
  else
    stopRecording.

Definition onend : Cmd :=
  read retryTimeoutRef (fun r =>
    match r with
    | None => stopRecording
    | Some _ => skip
    end).

(** [initializeSpeechRecognition] of a render whose [isRecording] is
    [isRecording_r]; [ctor_ok] says whether constructing the recognition
    object succeeds. *)
Definition initializeSpeechRecognition (isRecording_r ctor_ok : bool) : Cmd :=
  if ctor_ok then
    modify (fun st => with_recognitionRef st (Some (mkHandlers isRecording_r)))
  else
    setIsSpeechSupported false.

Definition not_supported : jsstring :=
  lit "Speech recognition is not supported in your browser or microphone access was denied.".

Definition failed_to_start : jsstring :=
  lit "Failed to start speech recognition. Please try again.".

(** [recognitionRef.current.start()] inside a [try]: the call throws
    when the ref is null or when the platform says so; [k_throw] is the
    [catch] block. *)
Definition try_start (throws : bool) (k_throw : Cmd) : Cmd :=
  read recognitionRef (fun r =>
    match r with
    | None => k_throw
    | Some _ => emit RecognitionStart ;; when throws k_throw
    end).

Definition toggleRecording (start_throws ctor_ok retry_throws : bool) : Cmd :=
  fun st =>
    if negb (isSpeechSupported st) then emit (Alert not_supported) st
    else if isRecording st then stopRecording st
    else
      (setInput [] ;;
       try_start start_throws
         (initializeSpeechRecognition (isRecording st) ctor_ok ;;
          try_start retry_throws
            (setIsRecording false ;;
             setIsSpeechSupported false ;;
             emit (Alert failed_to_start)))) st.

(** ** Conversation orchestrator *)

(** [handleSubmit] up to its [await]: [st] is the render the handler
    belongs to, so [input], [isLoading], [isRecording] and [messages]
    read below are that render's constants, while [setMessages] receives
    an updater of whatever the list is when it runs.  The two clock
    reads ([Date.now()] and [new Date()]) are taken at the same [now]. *)
Definition handleSubmit (now : Z) : Cmd :=
  fun st =>
    if negb (truthy (trim (input st))) || isLoading st then skip st
    else
      let userMessage := mkMessage (toString now) (trim (input st)) user now in
      (when (isRecording st) stopRecording ;;
       setMessages (fun prev => prev ++ [userMessage]) ;;
       setInput [] ;;
       setIsLoading true ;;
       let conversationHistory :=
         formatConversationHistory (messages st ++ [userMessage]) in
       emit (Fetch (mkChatRequest (content userMessage) conversationHistory))) st.

(** The rest of [handleSubmit], run when the awaited request settles:
    the remainder of the [try], or the [catch], and then the [finally]. *)
Definition handleSubmit_settled (now : Z) (o : FetchOutcome) : Cmd :=
  match o with
  | Response true (BodyParsed data) =>
      let aiMessage :=
        mkMessage (or_else (data_id data) (toString now))
                  (or_else (data_message data) couldnt_process) ai now in
      setMessages (fun prev => prev ++ [aiMessage])
  | Response true BodyRejected | Response false _ | FetchRejected =>
      let errorMessage := mkMessage (toString now) trouble_connecting ai now in
      setMessages (fun prev => prev ++ [errorMessage])
  end ;;
  setIsLoading false.

Definition resetConversation : Cmd :=
  fun st =>
    (setMessages (fun _ => []) ;;
     modify (fun s => with_storage s None) ;;
     setInput [] ;;
     when (isRecording st) stopRecording) st.

(** ** Renders and events *)

(** The effect [localStorage.setItem('conversation', JSON.stringify(messages))]
    with dependency [[messages]]: it runs after a render in which
    [messages] is another array than in the render before. *)
Definition persist (before after : State) : State :=
  if bool_decide (messages_identity before = messages_identity after) then after
  else with_storage after (Some (messages after)).

(** State after the first render and its effects, in source order:
    probe and initialise speech recognition, remove the stored
    conversation, store the (empty) message list.  [stored] is what the
    store held before. *)
Definition mount (supported ctor_ok : bool) (now : Z)
    (stored : option (list Message)) : State * list Effect :=
  let first :=
    mkState [] 0%N [] false false false None None None now ∅ 1%positive stored in
  (setIsSpeechSupported supported ;;
   when supported (initializeSpeechRecognition (isRecording first) ctor_ok) ;;
   modify (fun s => with_storage s None) ;;
   modify (fun s => with_storage s (Some (messages s)))) first.

Inductive Event :=
| Typed (text : jsstring)                       (* [onChange] of the text area *)
| Submitted (now : Z)                           (* form submit, or Enter *)
| Settled (now : Z) (o : FetchOutcome)          (* the request of a submission settles *)
| ResetClicked
| ToggleClicked (start_throws ctor_ok retry_throws : bool)
| RecStart (now : Z)
| RecResult (now : Z) (results : list jsstring)
| RecAudioStart (now : Z)
| RecAudioEnd (now : Z)
| RecError (now : Z) (error : jsstring)
| RecEnd
| TimerFired (i : positive) (now : Z) (r : RestartResult)
| Unmounted.

(** A timer callback runs when its entry is still in the table and due.
    An interval stays in the table, a timeout leaves it. *)
Definition fireTimer (i : positive) (now : Z) (r : RestartResult) : Cmd :=
  read timers (fun tbl =>
    match tbl !! i with
    | None => skip
    | Some t =>
        if now <? due t then skip
        else
          match kind t with
          | SilencePoll =>
              modify (fun st =>
                with_timers st (<[i := mkTimer SilencePoll (timer_isRecording t)
                                               (now + 500)]> (timers st))
                            (next_timer st)) ;;
              silencePoll (timer_isRecording t) now
          | RetryRestart =>
              clearTimer i ;;
              retryRestart (timer_isRecording t) r
          end
    end).

(** Events of the recognition object reach the handlers installed on it. *)
Definition recognition_event (k : Handlers -> Cmd) : Cmd :=
  read recognitionRef (fun r =>
    match r with Some h => k h | None => skip end).

Definition handle (ev : Event) : Cmd :=
  match ev with
  | Typed text => setInput text
  | Submitted now => handleSubmit now
  | Settled now o => handleSubmit_settled now o
  | ResetClicked => resetConversation
  | ToggleClicked a b c => toggleRecording a b c
  | RecStart now => recognition_event (fun h => onstart h now)
  | RecResult now results => recognition_event (fun _ => onresult now results)
  | RecAudioStart now => recognition_event (fun _ => onaudiostart now)
  | RecAudioEnd now => recognition_event (fun _ => onaudioend now)
  | RecError now error => recognition_event (fun h => onerror h now error)
  | RecEnd => recognition_event (fun _ => onend)
  | TimerFired i now r => fireTimer i now r
  | Unmounted => stopRecording
  end.

(** One turn of the event loop: the handler, then the re-render with its
    effects. *)
Definition step (ev : Event) : Cmd :=
  fun st => let '(st', eff) := handle ev st in (persist st st', eff).

Fixpoint run (evs : list Event) : Cmd :=
  match evs with
  | [] => skip
  | ev :: rest => step ev ;; run rest
  end.

(** A session: the mount, then events. *)
Definition session (supported ctor_ok : bool) (now : Z)
    (stored : option (list Message)) (evs : list Event) : State * list Effect :=
  let '(st0, e0) := mount supported ctor_ok now stored in
  let '(st, e) := run evs st0 in
  (st, e0 ++ e).

(** ** Notions used in the statements *)

(** A submission as the user performs it: the text typed, the time of
    the submit, how the request settles and when. *)
Record Submission := mkSubmission {
  sub_text : jsstring;
  sub_at : Z;
  sub_outcome : FetchOutcome;
  sub_settled_at : Z
}.

Definition submission_events (s : Submission) : list Event :=
  [Typed (sub_text s); Submitted (sub_at s);
   Settled (sub_settled_at s) (sub_outcome s)].

(** Non-empty after trimming. *)
Definition valid_submission (s : Submission) : Prop := trim (sub_text s) <> [].

(** User and assistant messages alternate, a user message first. *)
Definition alternating (l : list Message) : Prop :=
  forall i m, l !! i = Some m ->
              sender m = if Nat.even i then user else ai.

(** The request failed: a thrown exception or a non-2xx status. *)
Definition request_failed (o : FetchOutcome) : bool :=
  match o with
  | FetchRejected => true
  | Response ok body =>
      negb ok || match body with BodyRejected => true | BodyParsed _ => false end
  end.

(** * Proofs *)

(** ** Frame properties *)

Lemma stopRecording_frame st :
  let st' := (stopRecording st).1 in
  messages st' = messages st /\ messages_identity st' = messages_identity st /\
  input st' = input st /\ isLoading st' = isLoading st /\
  storage st' = storage st /\ isSpeechSupported st' = isSpeechSupported st /\
  recognitionRef st' = recognitionRef st /\
  lastSoundTimestampRef st' = lastSoundTimestampRef st.
Proof.
  destruct st as [ms mi inp ld rec sup rr rt sl last tm nx sto].
  destruct rr, rt, sl; cbn; repeat split; reflexivity.
Qed.

Lemma persist_frame before after :
  let st' := persist before after in
  messages st' = messages after /\ messages_identity st' = messages_identity after /\
  input st' = input after /\ isLoading st' = isLoading after /\
  isRecording st' = isRecording after /\
  isSpeechSupported st' = isSpeechSupported after /\
  recognitionRef st' = recognitionRef after /\
  retryTimeoutRef st' = retryTimeoutRef after /\
  silenceTimeoutRef st' = silenceTimeoutRef after /\
  lastSoundTimestampRef st' = lastSoundTimestampRef after /\
  timers st' = timers after /\ next_timer st' = next_timer after.
Proof.
  unfold persist. case_bool_decide; cbn; repeat split; reflexivity.
Qed.

Lemma persist_same st : persist st st = st.
Proof. unfold persist. rewrite bool_decide_eq_true_2; reflexivity. Qed.

Lemma run_app evs1 evs2 st :
  run (evs1 ++ evs2) st = (run evs1 ;; run evs2) st.
Proof.
  revert st. induction evs1 as [|ev evs1 IH]; intros st; cbn.
  - destruct (run evs2 st); reflexivity.
  - unfold seq in *. destruct (step ev st) as [s1 e1].
    rewrite IH. destruct (run evs1 s1) as [s2 e2].
    destruct (run evs2 s2) as [s3 e3]. rewrite app_assoc. reflexivity.
Qed.

Lemma step_unfold ev st :
  step ev st = (persist st (handle ev st).1, (handle ev st).2).
Proof. unfold step. destruct (handle ev st); reflexivity. Qed.

(** ** Trimming *)

Lemma trimStart_whitespace s :
  forallb isWhiteSpace s = true -> trimStart s = [].
Proof.
  induction s as [|c s IH]; cbn; [reflexivity|].
  intros H. apply andb_true_iff in H as [Hc Hs]. rewrite Hc. auto.
Qed.

Lemma trim_whitespace s : forallb isWhiteSpace s = true -> trim s = [].
Proof.
  intros H. unfold trim, trimEnd. rewrite (trimStart_whitespace s H).
  reflexivity.
Qed.

(** ** The submission flow *)

Lemma handleSubmit_guard st now :
  trim (input st) = [] \/ isLoading st = true -> handleSubmit now st = (st, []).
Proof.
  intros [H|H]; unfold handleSubmit; rewrite H; cbn.
  - reflexivity.
  - rewrite orb_true_r. reflexivity.
Qed.

Definition requests (effs : list Effect) : list ChatRequest :=
  omap (fun e => match e with Fetch b => Some b | _ => None end) effs.

Lemma stopRecording_requests st : requests (stopRecording st).2 = [].
Proof.
  destruct st as [ms mi inp ld rec sup rr rt sl last tm nx sto].
  destruct rr, rt, sl; reflexivity.
Qed.

(** What an accepted submission does to the conversation. *)
Lemma handleSubmit_accepted st now :
  trim (input st) <> [] -> isLoading st = false ->
  let userMessage := mkMessage (toString now) (trim (input st)) user now in
  let r := handleSubmit now st in
  messages r.1 = messages st ++ [userMessage] /\
  isLoading r.1 = true /\ input r.1 = [] /\
  requests r.2 =
    [mkChatRequest (trim (input st))
       (formatConversationHistory (messages st ++ [userMessage]))].
Proof.
  intros Hin Hld. unfold handleSubmit. rewrite Hld.
  destruct (trim (input st)) as [|c w] eqn:Et; [congruence|]. cbn [truthy negb orb].
  destruct (isRecording st) eqn:Hr; cbn [when].
  - pose proof (stopRecording_frame st) as (Hm & _).
    pose proof (stopRecording_requests st) as Hq.
    unfold seq. destruct (stopRecording st) as [s1 e1]. cbn in *.
    rewrite Hm. repeat split; try reflexivity.
    unfold requests in *. rewrite omap_app, Hq. reflexivity.
  - cbn. repeat split; reflexivity.
Qed.

(** What a settled request does to the conversation: one message from
    the assistant is appended, whatever the outcome. *)
Lemma handleSubmit_settled_appends st now o :
  exists a,
    messages (handleSubmit_settled now o st).1 = messages st ++ [a] /\
    sender a = ai /\
    isLoading (handleSubmit_settled now o st).1 = false /\
    (handleSubmit_settled now o st).2 = [].
Proof.
  destruct o as [|[] [|d]]; cbn; eexists; repeat split; reflexivity.
Qed.

Lemma handleSubmit_settled_failed st now o :
  request_failed o = true ->
  messages (handleSubmit_settled now o st).1 =
  messages st ++ [mkMessage (toString now) trouble_connecting ai now].
Proof.
  destruct o as [|[] [|d]]; cbn; intros H; try discriminate; reflexivity.
Qed.

Lemma handleSubmit_settled_success st now d :
  messages (handleSubmit_settled now (Response true (BodyParsed d)) st).1 =
  messages st ++ [mkMessage (or_else (data_id d) (toString now))
                            (or_else (data_message d) couldnt_process) ai now].
Proof. reflexivity. Qed.

Lemma step_messages ev st :
  messages (step ev st).1 = messages (handle ev st).1.
Proof. rewrite step_unfold. cbn. apply persist_frame. Qed.

Lemma step_isLoading ev st :
  isLoading (step ev st).1 = isLoading (handle ev st).1.
Proof. rewrite step_unfold. cbn. apply persist_frame. Qed.

Lemma step_input ev st : input (step ev st).1 = input (handle ev st).1.
Proof. rewrite step_unfold. cbn. apply persist_frame. Qed.

Lemma run_cons ev evs st :
  (run (ev :: evs) st).1 = (run evs (step ev st).1).1.
Proof.
  cbn. unfold seq. destruct (step ev st) as [s1 e1]. cbn.
  destruct (run evs s1); reflexivity.
Qed.

Lemma run_cons_effects ev evs st :
  (run (ev :: evs) st).2 = (step ev st).2 ++ (run evs (step ev st).1).2.
Proof.
  cbn. unfold seq. destruct (step ev st) as [s1 e1]. cbn.
  destruct (run evs s1); reflexivity.
Qed.

Lemma run_app_effects evs1 evs2 st :
  (run (evs1 ++ evs2) st).2 = (run evs1 st).2 ++ (run evs2 (run evs1 st).1).2.
Proof.
  rewrite run_app. unfold seq. destruct (run evs1 st) as [s1 e1]. cbn.
  destruct (run evs2 s1); reflexivity.
Qed.

Lemma requests_app e1 e2 : requests (e1 ++ e2) = requests e1 ++ requests e2.
Proof. unfold requests. apply omap_app. Qed.

(** One full exchange: type, submit, let the request settle. *)
Lemma exchange st s :
  isLoading st = false -> valid_submission s ->
  let r := run (submission_events s) st in
  exists a,
    messages r.1 =
      messages st ++
      [mkMessage (toString (sub_at s)) (trim (sub_text s)) user (sub_at s); a] /\
    sender a = ai /\ isLoading r.1 = false /\
    length (requests r.2) = 1%nat.
Proof.
  intros Hld Hv. unfold submission_events. cbn zeta.
  rewrite !run_cons, !run_cons_effects. cbn [run skip fst snd].
  set (s1 := (step (Typed (sub_text s)) st).1).
  assert (H1 : messages s1 = messages st /\ isLoading s1 = false /\
               input s1 = sub_text s).
  { subst s1. rewrite step_messages, step_isLoading, step_input. cbn. auto. }
  destruct H1 as (Hm1 & Hl1 & Hi1).
  set (s2 := (step (Submitted (sub_at s)) s1).1).
  destruct (handleSubmit_accepted s1 (sub_at s)) as (Hm & _ & _ & Hq).
  { rewrite Hi1. exact Hv. }
  { exact Hl1. }
  assert (H2 : messages s2 = messages st ++
                 [mkMessage (toString (sub_at s)) (trim (sub_text s)) user (sub_at s)]).
  { subst s2. rewrite step_messages. cbn [handle].
    rewrite Hm, Hm1, Hi1. reflexivity. }
  destruct (handleSubmit_settled_appends s2 (sub_settled_at s) (sub_outcome s))
    as (a & Hm3 & Hs & Hl3 & He3).
  exists a. rewrite step_messages, step_isLoading. cbn [handle].
  rewrite Hm3, H2, <- app_assoc. repeat split; auto.
  rewrite !requests_app, !step_unfold. cbn [handle snd].
  rewrite Hq, He3. reflexivity.
Qed.

Lemma alternating_cons_pair l u a :
  alternating l -> sender u = user -> sender a = ai -> alternating (u :: a :: l).
Proof.
  intros Hl Hu Ha [|[|i]] m Hi; cbn in Hi |- *.
  - congruence.
  - congruence.
  - apply Hl in Hi. exact Hi.
Qed.

Lemma run_app_state evs1 evs2 st :
  (run (evs1 ++ evs2) st).1 = (run evs2 (run evs1 st).1).1.
Proof.
  rewrite run_app. unfold seq. destruct (run evs1 st) as [s1 e1]. cbn.
  destruct (run evs2 s1); reflexivity.
Qed.

Lemma exchanges subs : forall st,
  isLoading st = false -> Forall valid_submission subs ->
  let r := run (flat_map submission_events subs) st in
  exists added,
    messages r.1 = messages st ++ added /\
    length added = (2 * length subs)%nat /\
    alternating added /\ isLoading r.1 = false /\
    length (requests r.2) = length subs.
Proof.
  induction subs as [|s subs IH]; intros st Hld Hv; cbn zeta.
  - exists []. cbn. rewrite app_nil_r. repeat split; auto.
    intros i m Hi. destruct i; discriminate.
  - apply Forall_cons in Hv as [Hs Hv].
    change (flat_map submission_events (s :: subs))
      with (submission_events s ++ flat_map submission_events subs).
    rewrite run_app_state, run_app_effects.
    destruct (exchange st s Hld Hs) as (a & Hm & Ha & Hl1 & Hq1).
    destruct (IH _ Hl1 Hv) as (added & Hm2 & Hlen & Halt & Hl2 & Hq2).
    eexists (_ :: a :: added). rewrite Hm2, Hm, <- app_assoc. cbn [app].
    repeat split; auto.
    + cbn. lia.
    + apply alternating_cons_pair; auto.
    + rewrite requests_app, length_app, Hq1, Hq2. reflexivity.
Qed.

(** C1. Starting with no request in flight, N submissions of text that
    is non-empty after trimming, each left to settle (with success, a
    failure status or an exception), extend the message list by exactly
    2N messages that alternate user, assistant, and issue exactly N
    requests; from the empty list the result is exactly those 2N
    messages. *)
Theorem submissions_append_alternating_pairs
    (subs : list Submission) (st : State) :
  isLoading st = false ->
  Forall valid_submission subs ->
  let r := run (flat_map submission_events subs) st in
  (exists added,
     messages r.1 = messages st ++ added /\
     length added = (2 * length subs)%nat /\ alternating added) /\
  length (requests r.2) = length subs /\
  (messages st = [] ->
     length (messages r.1) = (2 * length subs)%nat /\ alternating (messages r.1)).
Proof.
  intros Hld Hv r.
  destruct (exchanges subs st Hld Hv) as (added & Hm & Hlen & Halt & _ & Hq).
  fold r in Hm, Hq. split; [|split].
  - exists added. auto.
  - exact Hq.
  - intros He. rewrite Hm, He. cbn. auto.
Qed.

Definition fresh_session : State := (mount true true 0 None).1.

Definition two_submissions : list Submission :=
  [mkSubmission (lit " I was flying ") 10
     (Response true (BodyParsed (mkResponseData (Some (lit "a1"))
                                                (Some (lit "Freedom.")))))
     20;
   mkSubmission (lit "and then I fell") 30 FetchRejected 40].

Lemma submissions_append_alternating_pairs_witness :
  let st' := (run (flat_map submission_events two_submissions) fresh_session).1 in
  length (messages st') = 4%nat /\ alternating (messages st').
Proof.
  refine (proj2 (proj2 (submissions_append_alternating_pairs two_submissions
                          fresh_session _ _)) _).
  - reflexivity.
  - repeat constructor; unfold valid_submission; vm_compute; discriminate.
  - reflexivity.
Defined.

(** C2. With an empty or whitespace-only input, or while a request is in
    flight, a submit changes nothing at all (so neither the message
    list, nor the in-flight flag, nor the stored conversation) and makes
    no outside call (so no request). *)
Theorem submit_is_noop_when_blank_or_in_flight (st : State) (now : Z) :
  forallb isWhiteSpace (input st) = true \/ isLoading st = true ->
  handleSubmit now st = (st, []) /\ step (Submitted now) st = (st, []).
Proof.
  intros H.
  assert (Hg : handleSubmit now st = (st, [])).
  { apply handleSubmit_guard. destruct H as [H|H]; [left|right; exact H].
    apply trim_whitespace. exact H. }
  split; [exact Hg|].
  rewrite step_unfold. cbn [handle]. rewrite Hg. cbn. rewrite persist_same.
  reflexivity.
Qed.

Lemma submit_is_noop_when_blank_or_in_flight_witness :
  let st := (step (Typed (lit "  ")) fresh_session).1 in
  handleSubmit 5 st = (st, []) /\ step (Submitted 5) st = (st, []).
Proof.
  apply submit_is_noop_when_blank_or_in_flight. left. reflexivity.
Defined.

(** C3. When the request of a submission fails (a non-2xx status or a
    thrown exception), settling it appends exactly one assistant message
    with the fixed apology and an id generated on the spot; and however
    the request settles, the in-flight flag is false afterwards. *)
Theorem failed_request_appends_one_apology
    (st : State) (now : Z) (o : FetchOutcome) :
  let st' := (step (Settled now o) st).1 in
  isLoading st' = false /\
  (request_failed o = true ->
   messages st' = messages st ++ [mkMessage (toString now) trouble_connecting ai now]).
Proof.
  cbn zeta. rewrite step_isLoading, step_messages. cbn [handle]. split.
  - destruct (handleSubmit_settled_appends st now o) as (a & _ & _ & Hl & _).
    exact Hl.
  - apply handleSubmit_settled_failed.
Qed.

Lemma failed_request_appends_one_apology_witness :
  let st := (run [Typed (lit "hello"); Submitted 7] fresh_session).1 in
  let st' := (step (Settled 9 (Response false BodyRejected)) st).1 in
  isLoading st = true /\ isLoading st' = false /\
  messages st' = messages st ++ [mkMessage (toString 9) trouble_connecting ai 9].
Proof.
  cbn zeta. split; [reflexivity|].
  pose proof (failed_request_appends_one_apology
                (run [Typed (lit "hello"); Submitted 7] fresh_session).1 9
                (Response false BodyRejected)) as [Hl Hm].
  split; [exact Hl | apply Hm; reflexivity].
Defined.

(** ** The wire projection *)

Lemma formatConversationHistory_lookup msgs i m :
  msgs !! i = Some m ->
  formatConversationHistory msgs !! i =
  Some (match sender m with
        | user => mkConversationMessage (Some role_user) (content m) None
        | ai => mkConversationMessage (Some role_assistant) (content m)
                                      (Some (id m))
        end).
Proof.
  unfold formatConversationHistory. revert i.
  induction msgs as [|m0 msgs IH]; intros [|i] H; cbn in *; try discriminate.
  - injection H as ->. reflexivity.
  - apply IH. exact H.
Qed.

(** C7. The wire projection keeps the order and the length of the
    message list, sends a user message as role 'user' with its content
    and no id, and an assistant message as role 'assistant' with its
    content and id; the one request of an accepted submission carries
    the trimmed text just submitted and the projection of the whole
    list, the new user message included as its last entry. *)
Theorem request_carries_projected_history
    (msgs : list Message) (st : State) (now : Z) :
  (length (formatConversationHistory msgs) = length msgs /\
   forall i m, msgs !! i = Some m ->
     (sender m = user ->
      formatConversationHistory msgs !! i =
      Some (mkConversationMessage (Some role_user) (content m) None)) /\
     (sender m = ai ->
      formatConversationHistory msgs !! i =
      Some (mkConversationMessage (Some role_assistant) (content m)
                                  (Some (id m))))) /\
  (trim (input st) <> [] -> isLoading st = false ->
   let r := step (Submitted now) st in
   requests r.2 =
     [mkChatRequest (trim (input st)) (formatConversationHistory (messages r.1))] /\
   last (messages r.1) = Some (mkMessage (toString now) (trim (input st)) user now) /\
   last (formatConversationHistory (messages r.1)) =
     Some (mkConversationMessage (Some role_user) (trim (input st)) None)).
Proof.
  split.
  - split.
    + unfold formatConversationHistory. apply length_map.
    + intros i m Hi. rewrite (formatConversationHistory_lookup _ _ _ Hi).
      split; intros ->; reflexivity.
  - intros Hin Hld r. subst r. rewrite step_messages, step_unfold. cbn [handle snd].
    destruct (handleSubmit_accepted st now Hin Hld) as (Hm & _ & _ & Hq).
    rewrite Hm, Hq. repeat split.
    + apply last_snoc.
    + unfold formatConversationHistory. rewrite map_app. cbn.
      apply last_snoc.
Qed.

Lemma request_carries_projected_history_witness :
  let st := (run (submission_events (mkSubmission (lit "one") 1 FetchRejected 2)
                  ++ [Typed (lit "two ")]) fresh_session).1 in
  requests (step (Submitted 3) st).2 =
    [mkChatRequest (lit "two")
       [mkConversationMessage (Some role_user) (lit "one") None;
        mkConversationMessage (Some role_assistant) trouble_connecting
                              (Some (toString 2));
        mkConversationMessage (Some role_user) (lit "two") None]].
Proof.
  cbn zeta.
  pose proof (request_carries_projected_history []
    (run (submission_events (mkSubmission (lit "one") 1 FetchRejected 2)
          ++ [Typed (lit "two ")]) fresh_session).1 3) as [_ H].
  destruct H as (Hq & _).
  - vm_compute. discriminate.
  - reflexivity.
  - rewrite Hq. reflexivity.
Defined.

(** ** Scenarios *)

Definition flying_reply : ResponseData :=
  mkResponseData (Some (lit "a1")) (Some (lit "Flying often symbolizes freedom.")).

(** C8. With no request in flight, submitting "I was flying" and
    receiving the successful body [{id: "a1", message: "Flying often
    symbolizes freedom."}] leaves a message list that ends with the user
    message "I was flying" followed by the assistant message with id
    "a1" and that text. *)
Theorem flying_scenario (st : State) (submitted_at settled_at : Z) :
  isLoading st = false ->
  let st' := (run [Typed (lit "I was flying"); Submitted submitted_at;
                   Settled settled_at (Response true (BodyParsed flying_reply))]
                  st).1 in
  messages st' =
    messages st ++
    [mkMessage (toString submitted_at) (lit "I was flying") user submitted_at;
     mkMessage (lit "a1") (lit "Flying often symbolizes freedom.") ai settled_at].
Proof.
  intros Hld.
  pose (s := mkSubmission (lit "I was flying") submitted_at
               (Response true (BodyParsed flying_reply)) settled_at).
  change (messages (run (submission_events s) st).1 =
          messages st ++
            [mkMessage (toString (sub_at s)) (trim (sub_text s)) user (sub_at s);
             mkMessage (lit "a1") (lit "Flying often symbolizes freedom.") ai
                       settled_at]).
  unfold submission_events. rewrite !run_cons. cbn [run skip fst].
  rewrite step_messages. cbn [handle sub_outcome sub_settled_at s].
  rewrite handleSubmit_settled_success, step_messages. cbn [handle].
  set (s1 := (step (Typed (sub_text s)) st).1).
  assert (H1 : messages s1 = messages st /\ isLoading s1 = false /\
               input s1 = sub_text s).
  { subst s1. rewrite step_messages, step_isLoading, step_input. cbn. auto. }
  destruct H1 as (Hm1 & Hl1 & Hi1).
  destruct (handleSubmit_accepted s1 (sub_at s)) as (Hm & _).
  - rewrite Hi1. vm_compute. discriminate.
  - exact Hl1.
  - rewrite Hm, Hm1, Hi1, <- app_assoc. reflexivity.
Qed.

Lemma flying_scenario_witness :
  messages (run [Typed (lit "I was flying"); Submitted 100;
                 Settled 250 (Response true (BodyParsed flying_reply))]
                fresh_session).1 =
    [mkMessage (toString 100) (lit "I was flying") user 100;
     mkMessage (lit "a1") (lit "Flying often symbolizes freedom.") ai 250].
Proof.
  apply (flying_scenario fresh_session 100 250). reflexivity.
Defined.

(** C10. The optional fields of a successful body count by truthiness:
    an empty [message] gives the assistant message the "couldn't
    process" text, and an empty [id] gives it an id generated on the
    spot, exactly as when the field is absent. *)
Theorem empty_fields_fall_back
    (st : State) (now : Z) (id_field message_field : option jsstring) :
  let appended d :=
    last (messages (step (Settled now (Response true (BodyParsed d))) st).1) in
  appended (mkResponseData id_field (Some [])) =
    Some (mkMessage (or_else id_field (toString now)) couldnt_process ai now) /\
  appended (mkResponseData id_field (Some [])) =
    appended (mkResponseData id_field None) /\
  appended (mkResponseData (Some []) message_field) =
    Some (mkMessage (toString now) (or_else message_field couldnt_process) ai now) /\
  appended (mkResponseData (Some []) message_field) =
    appended (mkResponseData None message_field).
Proof.
  intros appended. subst appended. cbn beta.
  rewrite !step_messages. cbn [handle].
  rewrite !handleSubmit_settled_success, !last_snoc. cbn.
  repeat split; reflexivity.
Qed.

(** ** Invariants of the voice controller *)

(** Every entry of the timer table is the interval held in
    [silenceTimeoutRef] or the timeout held in [retryTimeoutRef], and
    every long-lived callback closed over [isRecording = false]: the
    handlers are created either by the mount effect, whose render has
    the initial [useState(false)], or by the branch of [toggleRecording]
    that runs when [isRecording] is false. *)
Record Inv (st : State) : Prop := mkInv {
  inv_handlers : forall h, recognitionRef st = Some h -> closed_isRecording h = false;
  inv_closed : forall i t, timers st !! i = Some t -> timer_isRecording t = false;
  inv_owned : forall i t, timers st !! i = Some t ->
    (kind t = SilencePoll /\ silenceTimeoutRef st = Some i) \/
    (kind t = RetryRestart /\ retryTimeoutRef st = Some i)
}.

Definition clear_opt (r : option positive) (tbl : gmap positive Timer)
  : gmap positive Timer :=
  match r with Some i => delete i tbl | None => tbl end.

Lemma clear_opt_lookup r (tbl : gmap positive Timer) k t :
  clear_opt r tbl !! k = Some t -> tbl !! k = Some t /\ r <> Some k.
Proof.
  destruct r as [i|]; cbn; intros H.
  - apply lookup_delete_Some in H as [Hne H]. split; [exact H|congruence].
  - split; [exact H|discriminate].
Qed.

Lemma stopRecording_voice st :
  let st' := (stopRecording st).1 in
  timers st' = clear_opt (retryTimeoutRef st)
                 (clear_opt (silenceTimeoutRef st) (timers st)) /\
  retryTimeoutRef st' = None /\
  silenceTimeoutRef st' = silenceTimeoutRef st /\
  isRecording st' = false /\ next_timer st' = next_timer st.
Proof.
  destruct st as [ms mi inp ld rec sup rr rt sl last tm nx sto].
  destruct rr, rt, sl; cbn; repeat split; reflexivity.
Qed.

Lemma stopRecording_effects st :
  forall e, e ∈ (stopRecording st).2 -> e = RecognitionStop.
Proof.
  destruct st as [ms mi inp ld rec sup rr rt sl last tm nx sto].
  destruct rr, rt, sl; cbn; intros e He;
    repeat (apply elem_of_cons in He as [He|He]; [exact He|]);
    apply elem_of_nil in He; contradiction.
Qed.

(** Under the invariant, [stopRecording] leaves no timer behind. *)
Lemma stopRecording_clears st :
  Inv st ->
  let st' := (stopRecording st).1 in
  timers st' = ∅ /\ retryTimeoutRef st' = None /\ isRecording st' = false.
Proof.
  intros HI. destruct (stopRecording_voice st) as (Ht & Hr & _ & Hrec & _).
  cbn zeta. split; [|split; assumption].
  rewrite Ht. apply map_eq. intros k. rewrite lookup_empty.
  destruct (clear_opt _ _ !! k) as [t|] eqn:E; [|reflexivity].
  apply clear_opt_lookup in E as [E H1].
  apply clear_opt_lookup in E as [E H2].
  destruct (inv_owned st HI k t E) as [[_ H]|[_ H]]; congruence.
Qed.

Lemma Inv_stopRecording st : Inv st -> Inv (stopRecording st).1.
Proof.
  intros HI. destruct (stopRecording_clears st HI) as (Ht & _).
  destruct (stopRecording_frame st) as (_ & _ & _ & _ & _ & _ & Hrr & _).
  constructor.
  - rewrite Hrr. apply HI.
  - intros i t. rewrite Ht, lookup_empty. discriminate.
  - intros i t. rewrite Ht, lookup_empty. discriminate.
Qed.

(** The invariant only reads four fields. *)
Definition voice_view (st : State) :=
  (recognitionRef st, retryTimeoutRef st, silenceTimeoutRef st, timers st).

Lemma Inv_view st st' : voice_view st' = voice_view st -> Inv st -> Inv st'.
Proof.
  unfold voice_view. intros H HI. injection H as H1 H2 H3 H4.
  constructor.
  - rewrite H1. apply HI.
  - rewrite H4. apply HI.
  - rewrite H4, H3, H2. apply HI.
Qed.

Lemma persist_view before after : voice_view (persist before after) = voice_view after.
Proof.
  unfold voice_view.
  destruct (persist_frame before after)
    as (_ & _ & _ & _ & _ & _ & -> & -> & -> & _ & -> & _).
  reflexivity.
Qed.

(** Arming a timer whose callback closed over [false], after clearing
    the one the ref held. *)
Lemma Inv_arm_silence st (d : Z) st' :
  Inv st ->
  voice_view st' =
    (recognitionRef st, retryTimeoutRef st, Some (next_timer st),
     <[next_timer st := mkTimer SilencePoll false d]>
       (clear_opt (silenceTimeoutRef st) (timers st))) ->
  Inv st'.
Proof.
  unfold voice_view. intros HI H. injection H as H1 H2 H3 H4. constructor.
  - rewrite H1. apply HI.
  - intros i t. rewrite H4. intros E.
    apply lookup_insert_Some in E as [[_ <-]|[_ E]]; [reflexivity|].
    apply clear_opt_lookup in E as [E _]. eapply inv_closed; eauto.
  - intros i t. rewrite H4, H3, H2. intros E.
    apply lookup_insert_Some in E as [[<- <-]|[_ E]]; [left; auto|].
    apply clear_opt_lookup in E as [E Hne].
    destruct (inv_owned st HI i t E) as [[_ H]|H]; [congruence|right; exact H].
Qed.

Lemma Inv_arm_retry st (d : Z) st' :
  Inv st ->
  voice_view st' =
    (recognitionRef st, Some (next_timer st), silenceTimeoutRef st,
     <[next_timer st := mkTimer RetryRestart false d]>
       (clear_opt (retryTimeoutRef st) (timers st))) ->
  Inv st'.
Proof.
  unfold voice_view. intros HI H. injection H as H1 H2 H3 H4. constructor.
  - rewrite H1. apply HI.
  - intros i t. rewrite H4. intros E.
    apply lookup_insert_Some in E as [[_ <-]|[_ E]]; [reflexivity|].
    apply clear_opt_lookup in E as [E _]. eapply inv_closed; eauto.
  - intros i t. rewrite H4, H3, H2. intros E.
    apply lookup_insert_Some in E as [[<- <-]|[_ E]]; [right; auto|].
    apply clear_opt_lookup in E as [E Hne].
    destruct (inv_owned st HI i t E) as [H|[_ H]]; [left; exact H|congruence].
Qed.

Lemma Inv_rearm st i t (d : Z) st' :
  Inv st -> timers st !! i = Some t -> kind t = SilencePoll ->
  voice_view st' =
    (recognitionRef st, retryTimeoutRef st, silenceTimeoutRef st,
     <[i := mkTimer SilencePoll (timer_isRecording t) d]> (timers st)) ->
  Inv st'.
Proof.
  unfold voice_view. intros HI Ht Hk H. injection H as H1 H2 H3 H4. constructor.
  - rewrite H1. apply HI.
  - intros j u. rewrite H4. intros E.
    apply lookup_insert_Some in E as [[_ <-]|[_ E]]; cbn; eapply inv_closed; eauto.
  - intros j u. rewrite H4, H3, H2. intros E.
    apply lookup_insert_Some in E as [[<- <-]|[_ E]]; cbn.
    + destruct (inv_owned st HI i t Ht) as [[_ H]|[H _]]; [left; auto|congruence].
    + eapply inv_owned; eauto.
Qed.

Lemma Inv_delete st i st' :
  Inv st ->
  voice_view st' =
    (recognitionRef st, retryTimeoutRef st, silenceTimeoutRef st,
     delete i (timers st)) ->
  Inv st'.
Proof.
  unfold voice_view. intros HI H. injection H as H1 H2 H3 H4. constructor.
  - rewrite H1. apply HI.
  - intros j u. rewrite H4. intros E.
    apply lookup_delete_Some in E as [_ E]. eapply inv_closed; eauto.
  - intros j u. rewrite H4, H3, H2. intros E.
    apply lookup_delete_Some in E as [_ E]. eapply inv_owned; eauto.
Qed.

(** Commands that keep the invariant. *)
Definition preserves (c : Cmd) : Prop := forall st, Inv st -> Inv (c st).1.

Lemma preserves_skip : preserves skip.
Proof. intros st H. exact H. Qed.

Lemma preserves_emit e : preserves (emit e).
Proof. intros st H. exact H. Qed.

Lemma preserves_seq a b : preserves a -> preserves b -> preserves (a ;; b).
Proof.
  intros Ha Hb st H. unfold seq. specialize (Ha st H).
  destruct (a st) as [s1 e1]. specialize (Hb s1 Ha).
  destruct (b s1) as [s2 e2]. exact Hb.
Qed.

Lemma preserves_when c a : preserves a -> preserves (when c a).
Proof. destruct c; cbn; auto using preserves_skip. Qed.

Lemma preserves_read {A} (f : State -> A) k :
  (forall st, Inv st -> Inv (k (f st) st).1) -> preserves (read f k).
Proof. intros H st HI. apply H. exact HI. Qed.

Lemma preserves_modify f :
  (forall st, voice_view (f st) = voice_view st) -> preserves (modify f).
Proof. intros H st HI. cbn. eapply Inv_view; eauto. Qed.

Lemma preserves_stopRecording : preserves stopRecording.
Proof. exact Inv_stopRecording. Qed.

Lemma preserves_setMessages f : preserves (setMessages f).
Proof. apply preserves_modify. reflexivity. Qed.

Lemma preserves_setInput v : preserves (setInput v).
Proof. apply preserves_modify. reflexivity. Qed.

Lemma preserves_setIsLoading v : preserves (setIsLoading v).
Proof. apply preserves_modify. reflexivity. Qed.

Lemma preserves_setIsRecording v : preserves (setIsRecording v).
Proof. apply preserves_modify. reflexivity. Qed.

Lemma preserves_setIsSpeechSupported v : preserves (setIsSpeechSupported v).
Proof. apply preserves_modify. reflexivity. Qed.

Create HintDb preserves.
#[local] Hint Resolve preserves_skip preserves_emit preserves_seq preserves_when
  preserves_stopRecording preserves_setMessages preserves_setInput
  preserves_setIsLoading preserves_setIsRecording preserves_setIsSpeechSupported
  : preserves.

Lemma preserves_startSilenceDetection now : preserves (startSilenceDetection false now).
Proof.
  intros st HI. eapply (Inv_arm_silence st (now + 500)); [exact HI|].
  destruct st as [ms mi inp ld rec sup rr rt sl last tm nx sto].
  destruct sl; reflexivity.
Qed.

Lemma preserves_onstart h now :
  closed_isRecording h = false -> preserves (onstart h now).
Proof.
  intros Hh. unfold onstart. rewrite Hh.
  apply preserves_seq; [auto with preserves|].
  apply preserves_seq; [|apply preserves_startSilenceDetection].
  apply preserves_modify. reflexivity.
Qed.

Lemma preserves_arm_retry now :
  preserves
    (read retryTimeoutRef (fun r =>
       match r with Some i => clearTimer i | None => skip end) ;;
     setTimer (mkTimer RetryRestart false (now + 1000)) (fun i =>
       modify (fun st => with_retryTimeoutRef st (Some i)))).
Proof.
  intros st HI. eapply (Inv_arm_retry st (now + 1000)); [exact HI|].
  destruct st as [ms mi inp ld rec sup rr rt sl last tm nx sto].
  destruct rt; reflexivity.
Qed.

Lemma preserves_onerror h now error :
  closed_isRecording h = false -> preserves (onerror h now error).
Proof.
  intros Hh. unfold onerror. rewrite Hh.
  repeat case_bool_decide; auto with preserves.
  apply preserves_arm_retry.
Qed.

Lemma preserves_fireTimer i now r : preserves (fireTimer i now r).
Proof.
  apply preserves_read. intros st HI.
  destruct (timers st !! i) as [t|] eqn:Et; [|exact HI].
  destruct (now <? due t); [exact HI|].
  pose proof (inv_closed st HI i t Et) as Hc. rewrite Hc.
  destruct (kind t) eqn:Ek.
  - unfold seq, silencePoll, read, modify. rewrite andb_false_r. cbn.
    eapply (Inv_rearm st i t (now + 500)); eauto. rewrite Hc. reflexivity.
  - unfold seq, retryRestart, clearTimer, modify. cbn.
    eapply (Inv_delete st i); eauto.
Qed.

Lemma preserves_try_start throws k : preserves k -> preserves (try_start throws k).
Proof.
  intros Hk. apply preserves_read. intros st HI.
  destruct (recognitionRef st); [|apply Hk; exact HI].
  apply preserves_seq; auto with preserves.
Qed.

Lemma preserves_initializeSpeechRecognition ctor_ok :
  preserves (initializeSpeechRecognition false ctor_ok).
Proof.
  destruct ctor_ok; cbn; [|auto with preserves].
  intros st HI. cbn. constructor; cbn.
  - intros h [= <-]. reflexivity.
  - apply HI.
  - apply HI.
Qed.

Lemma preserves_toggleRecording a b c : preserves (toggleRecording a b c).
Proof.
  intros st HI. unfold toggleRecording.
  destruct (isSpeechSupported st); cbn [negb]; [|exact HI].
  destruct (isRecording st); [apply Inv_stopRecording; exact HI|].
  revert st HI. apply preserves_seq; [auto with preserves|].
  apply preserves_try_start. apply preserves_seq.
  - apply preserves_initializeSpeechRecognition.
  - apply preserves_try_start. auto 6 with preserves.
Qed.

Lemma preserves_handleSubmit now : preserves (handleSubmit now).
Proof.
  intros st HI. unfold handleSubmit.
  destruct (negb (truthy (trim (input st))) || isLoading st); [exact HI|].
  set (u := mkMessage (toString now) (trim (input st)) user now).
  set (l := formatConversationHistory (messages st ++ [u])).
  set (c := isRecording st). clearbody c l. clearbody u. revert st HI.
  repeat (apply preserves_seq; [auto with preserves|]). auto with preserves.
Qed.

Lemma preserves_handleSubmit_settled now o : preserves (handleSubmit_settled now o).
Proof.
  unfold handleSubmit_settled. apply preserves_seq; [|auto with preserves].
  destruct o as [|[] [|d]]; auto with preserves.
Qed.

Lemma preserves_resetConversation : preserves resetConversation.
Proof.
  intros st. unfold resetConversation. generalize (isRecording st). intros c.
  revert st. apply preserves_seq; [auto with preserves|].
  apply preserves_seq; [apply preserves_modify; reflexivity|].
  auto with preserves.
Qed.

Lemma preserves_recognition_event k :
  (forall h, closed_isRecording h = false -> preserves (k h)) ->
  preserves (recognition_event k).
Proof.
  intros H. apply preserves_read. intros st HI.
  destruct (recognitionRef st) as [h|] eqn:E; [|exact HI].
  apply H; [|exact HI]. eapply inv_handlers; eauto.
Qed.

Lemma preserves_handle ev : preserves (handle ev).
Proof.
  destruct ev; cbn [handle].
  - auto with preserves.
  - apply preserves_handleSubmit.
  - apply preserves_handleSubmit_settled.
  - apply preserves_resetConversation.
  - apply preserves_toggleRecording.
  - apply preserves_recognition_event. intros h Hh. apply preserves_onstart, Hh.
  - apply preserves_recognition_event. intros h Hh. unfold onresult.
    apply preserves_seq; [auto with preserves|]. apply preserves_modify. reflexivity.
  - apply preserves_recognition_event. intros h Hh. apply preserves_modify. reflexivity.
  - apply preserves_recognition_event. intros h Hh. unfold onaudioend.
    apply preserves_read. intros st HI. apply preserves_when; auto with preserves.
  - apply preserves_recognition_event. intros h Hh. apply preserves_onerror, Hh.
  - apply preserves_recognition_event. intros h Hh. unfold onend.
    apply preserves_read. intros st HI.
    destruct (retryTimeoutRef st); [exact HI|apply Inv_stopRecording, HI].
  - apply preserves_fireTimer.
  - auto with preserves.
Qed.

Lemma preserves_step ev : preserves (step ev).
Proof.
  intros st HI. rewrite step_unfold. cbn.
  eapply Inv_view; [apply persist_view|]. apply preserves_handle. exact HI.
Qed.

Lemma preserves_run evs : preserves (run evs).
Proof.
  induction evs as [|ev evs IH]; cbn [run]; auto using preserves_seq, preserves_step
    with preserves.
Qed.

Lemma Inv_mount supported ctor_ok now stored :
  Inv (mount supported ctor_ok now stored).1.
Proof.
  destruct supported, ctor_ok; cbn; constructor; cbn;
    try (intros h [= <-]; reflexivity); try discriminate;
    intros i t; rewrite lookup_empty; discriminate.
Qed.

(** The invariant holds throughout every session. *)
Lemma Inv_session supported ctor_ok now stored evs :
  Inv (session supported ctor_ok now stored evs).1.
Proof.
  unfold session.
  pose proof (Inv_mount supported ctor_ok now stored) as H0.
  destruct (mount supported ctor_ok now stored) as [st0 e0].
  pose proof (preserves_run evs st0 H0) as H.
  destruct (run evs st0) as [st e]. exact H.
Qed.

(** ** Stopping and the timers *)

Definition fire (f : positive * Z * RestartResult) : Event :=
  TimerFired f.1.1 f.1.2 f.2.

Lemma no_timer_no_callback st i now r :
  timers st = ∅ -> step (TimerFired i now r) st = (st, []).
Proof.
  intros H. rewrite step_unfold. cbn [handle]. unfold fireTimer, read.
  rewrite H, lookup_empty. cbn. rewrite persist_same. reflexivity.
Qed.

Lemma no_timer_no_callbacks st fires :
  timers st = ∅ -> run (map fire fires) st = (st, []).
Proof.
  intros H. induction fires as [|f fires IH]; [reflexivity|].
  cbn [map run]. unfold seq, fire at 1. rewrite no_timer_no_callback by exact H.
  rewrite IH. reflexivity.
Qed.

(** C9. In every session, once [stopRecording] has run the timer table
    is empty (the silence interval and the restart timeout are both
    cleared), [retryTimeoutRef] is null and the session is not
    recording; whatever timer callbacks are fired afterwards, nothing
    runs: the state stays as it is and no call is made. *)
Theorem stopRecording_cancels_both_timers
    (supported ctor_ok : bool) (now : Z) (stored : option (list Message))
    (evs : list Event) (fires : list (positive * Z * RestartResult)) :
  let st := (session supported ctor_ok now stored evs).1 in
  let st' := (stopRecording st).1 in
  timers st' = ∅ /\ retryTimeoutRef st' = None /\ isRecording st' = false /\
  run (map fire fires) st' = (st', []).
Proof.
  cbn zeta.
  destruct (stopRecording_clears _ (Inv_session supported ctor_ok now stored evs))
    as (Ht & Hr & Hrec).
  repeat split; try assumption.
  apply no_timer_no_callbacks. exact Ht.
Qed.

(** ** Silence detection *)

(** The audio-end path: with three seconds of silence the handler stops
    the recording. *)
Lemma onaudioend_stops st now :
  3000 <= now - lastSoundTimestampRef st ->
  onaudioend now st = stopRecording st.
Proof.
  intros H. unfold onaudioend, read. cbn zeta.
  rewrite (proj2 (Z.leb_le _ _) H). reflexivity.
Qed.

(** The poll path: the callback tests the [isRecording] it closed over,
    which is [false] in every session, so it never stops anything. *)
Lemma silencePoll_closed_false now st : silencePoll false now st = (st, []).
Proof. unfold silencePoll, read. cbn zeta. rewrite andb_false_r. reflexivity. Qed.

Lemma silence_poll_is_inert supported ctor_ok t0 stored evs i now r t :
  let st := (session supported ctor_ok t0 stored evs).1 in
  timers st !! i = Some t -> kind t = SilencePoll ->
  isRecording (step (TimerFired i now r) st).1 = isRecording st.
Proof.
  cbn zeta. intros Et Ek.
  pose proof (Inv_session supported ctor_ok t0 stored evs) as HI.
  pose proof (inv_closed _ HI i t Et) as Hc.
  rewrite step_unfold. cbn [handle fst].
  destruct (persist_frame (session supported ctor_ok t0 stored evs).1
    (fireTimer i now r (session supported ctor_ok t0 stored evs).1).1)
    as (_ & _ & _ & _ & -> & _).
  unfold fireTimer, read. rewrite Et. destruct (now <? due t); [reflexivity|].
  rewrite Ek, Hc. unfold seq, modify. rewrite silencePoll_closed_false. reflexivity.
Qed.

(** A session that is listening: speech recognition is available, the
    microphone button was clicked and the recognition object reported
    its start at time 0. *)
Definition listening_session : State :=
  (session true true 0 None [ToggleClicked false true false; RecStart 0]).1.

(** C4. In the listening session, three seconds after the last sound the
    audio-end signal stops the recording, but the silence poll, which
    is armed and due, leaves it recording. *)
Theorem silence_poll_leaves_session_listening :
  isRecording listening_session = true /\
  lastSoundTimestampRef listening_session = 0 /\
  timers listening_session !! 1%positive = Some (mkTimer SilencePoll false 500) /\
  isRecording (step (RecAudioEnd 3000) listening_session).1 = false /\
  isRecording (step (TimerFired 1 3000 restart_ok) listening_session).1 = true /\
  isRecording (step (TimerFired 1 60000 restart_ok) listening_session).1 = true.
Proof. vm_compute. repeat split; reflexivity. Qed.

(** ** Restart after a network error *)

Definition network : jsstring := lit "network".

(** The part that holds: at most one restart timeout is pending. *)
Lemma at_most_one_pending_restart supported ctor_ok t0 stored evs i j ti tj :
  let st := (session supported ctor_ok t0 stored evs).1 in
  timers st !! i = Some ti -> kind ti = RetryRestart ->
  timers st !! j = Some tj -> kind tj = RetryRestart ->
  i = j.
Proof.
  cbn zeta. intros Ei Ki Ej Kj.
  pose proof (Inv_session supported ctor_ok t0 stored evs) as HI.
  destruct (inv_owned _ HI i ti Ei) as [[H _]|[_ Hi]]; [congruence|].
  destruct (inv_owned _ HI j tj Ej) as [[H _]|[_ Hj]]; [congruence|].
  congruence.
Qed.

(** The restart callback tests the [isRecording] it closed over, so in
    no session does a timer callback call [start()]. *)
Lemma restart_is_never_attempted supported ctor_ok t0 stored evs i now r :
  let st := (session supported ctor_ok t0 stored evs).1 in
  (step (TimerFired i now r) st).2 = [].
Proof.
  cbn zeta.
  pose proof (Inv_session supported ctor_ok t0 stored evs) as HI.
  rewrite step_unfold. cbn [handle snd]. unfold fireTimer, read.
  destruct (timers _ !! i) as [t|] eqn:Et; [|reflexivity].
  destruct (now <? due t); [reflexivity|].
  rewrite (inv_closed _ HI i t Et).
  destruct (kind t); unfold seq, modify, clearTimer.
  - rewrite silencePoll_closed_false. reflexivity.
  - reflexivity.
Qed.

Definition after_two_network_errors : State :=
  (run [RecError 100 network; RecError 600 network] listening_session).1.

(** C5. After two network errors 500 ms apart the first restart timeout
    is gone and one is pending, due one second after the second error;
    when it fires, with the session still recording, no call to
    [start()] or [stop()] is made: there is no restart attempt. *)
Theorem coalesced_restart_is_not_attempted :
  isRecording after_two_network_errors = true /\
  timers after_two_network_errors !! 2%positive = None /\
  timers after_two_network_errors !! 3%positive =
    Some (mkTimer RetryRestart false 1600) /\
  retryTimeoutRef after_two_network_errors = Some 3%positive /\
  (run [TimerFired 2 1100 restart_ok; TimerFired 3 1600 restart_ok]
       after_two_network_errors).2 = [] /\
  isRecording (run [TimerFired 2 1100 restart_ok; TimerFired 3 1600 restart_ok]
                   after_two_network_errors).1 = true.
Proof. vm_compute. repeat split; reflexivity. Qed.

(** ** Errors other than 'network' *)

Lemma onerror_other h now error :
  error <> lit "not-allowed" -> error <> lit "network" ->
  onerror h now error = stopRecording.
Proof.
  intros H1 H2. unfold onerror.
  rewrite !bool_decide_eq_false_2 by assumption. reflexivity.
Qed.

Lemma onerror_part_000_not_allowed h now :
  onerror_part_000 h now (lit "not-allowed") = stopRecording.
Proof. reflexivity. Qed.

(** C6. In the listening session a 'not-allowed' error raises the
    notice and marks speech input unsupported, but the session stays
    recording and its silence interval stays armed; any other
    non-network error (here 'audio-capture') stops the recording and
    leaves no timer. *)
Theorem not_allowed_error_does_not_stop :
  let r := step (RecError 50 (lit "not-allowed")) listening_session in
  let r' := step (RecError 50 (lit "audio-capture")) listening_session in
  r.2 = [Alert allow_microphone] /\
  isSpeechSupported r.1 = false /\
  isRecording r.1 = true /\
  timers r.1 !! 1%positive = Some (mkTimer SilencePoll false 500) /\
  isRecording r'.1 = false /\
  timers r'.1 !! 1%positive = None.
Proof. vm_compute. repeat split; reflexivity. Qed.

(** * Further properties of the component *)

(** ** The voice controller does not touch the conversation *)

(** Commands that leave the message list (and which array it is), the
    in-flight flag and the stored conversation alone and send no
    request. *)
Definition chat_frame (c : Cmd) : Prop :=
  forall st,
    messages (c st).1 = messages st /\
    messages_identity (c st).1 = messages_identity st /\
    isLoading (c st).1 = isLoading st /\
    storage (c st).1 = storage st /\
    requests (c st).2 = [].

Lemma chat_frame_skip : chat_frame skip.
Proof. intros st. cbn. auto. Qed.

Lemma chat_frame_alert text : chat_frame (emit (Alert text)).
Proof. intros st. cbn. auto. Qed.

Lemma chat_frame_start : chat_frame (emit RecognitionStart).
Proof. intros st. cbn. auto. Qed.

Lemma chat_frame_stop : chat_frame (emit RecognitionStop).
Proof. intros st. cbn. auto. Qed.

Lemma chat_frame_seq a b : chat_frame a -> chat_frame b -> chat_frame (a ;; b).
Proof.
  intros Ha Hb st. unfold seq.
  destruct (Ha st) as (A1 & A2 & A3 & A4 & A5). destruct (a st) as [s1 e1].
  destruct (Hb s1) as (B1 & B2 & B3 & B4 & B5). destruct (b s1) as [s2 e2].
  cbn [fst snd] in *. rewrite requests_app, A5, B5. repeat split; congruence.
Qed.

Lemma chat_frame_when c a : chat_frame a -> chat_frame (when c a).
Proof. destruct c; cbn; auto using chat_frame_skip. Qed.

Lemma chat_frame_read {A} (f : State -> A) k :
  (forall x, chat_frame (k x)) -> chat_frame (read f k).
Proof. intros H st. apply H. Qed.

Lemma chat_frame_modify f :
  (forall st, messages (f st) = messages st /\
              messages_identity (f st) = messages_identity st /\
              isLoading (f st) = isLoading st /\ storage (f st) = storage st) ->
  chat_frame (modify f).
Proof. intros H st. cbn. destruct (H st) as (? & ? & ? & ?). auto. Qed.

Lemma chat_frame_setTimer t k :
  (forall i, chat_frame (k i)) -> chat_frame (setTimer t k).
Proof.
  intros H st. unfold setTimer.
  destruct (H (next_timer st)
              (with_timers st (<[next_timer st := t]> (timers st))
                           (Pos.succ (next_timer st)))) as (? & ? & ? & ? & ?).
  auto.
Qed.

Ltac frame_modify := apply chat_frame_modify; intros ?; cbn; auto.

Lemma chat_frame_clear_ref (f : State -> option positive) :
  chat_frame (read f (fun r =>
    match r with Some i => clearTimer i | None => skip end)).
Proof.
  apply chat_frame_read. intros [i|]; [frame_modify|apply chat_frame_skip].
Qed.

Lemma chat_frame_stopRecording : chat_frame stopRecording.
Proof.
  intros st. destruct (stopRecording_frame st) as (? & ? & ? & ? & ? & _).
  pose proof (stopRecording_requests st). auto.
Qed.

Lemma chat_frame_setInput v : chat_frame (setInput v).
Proof. frame_modify. Qed.

Lemma chat_frame_setIsRecording v : chat_frame (setIsRecording v).
Proof. frame_modify. Qed.

Lemma chat_frame_setIsSpeechSupported v : chat_frame (setIsSpeechSupported v).
Proof. frame_modify. Qed.

Create HintDb chat_frame.
#[local] Hint Resolve chat_frame_skip chat_frame_alert chat_frame_start
  chat_frame_stop chat_frame_seq chat_frame_when chat_frame_clear_ref
  chat_frame_stopRecording chat_frame_setInput chat_frame_setIsRecording
  chat_frame_setIsSpeechSupported : chat_frame.

Lemma chat_frame_arm t (set_ref : State -> positive -> State) f :
  (forall st i, messages (set_ref st i) = messages st /\
                messages_identity (set_ref st i) = messages_identity st /\
                isLoading (set_ref st i) = isLoading st /\
                storage (set_ref st i) = storage st) ->
  chat_frame
    (read f (fun r => match r with Some i => clearTimer i | None => skip end) ;;
     setTimer t (fun i => modify (fun st => set_ref st i))).
Proof.
  intros H. apply chat_frame_seq; [apply chat_frame_clear_ref|].
  apply chat_frame_setTimer. intros i. apply chat_frame_modify. intros st. apply H.
Qed.

Lemma chat_frame_startSilenceDetection c now :
  chat_frame (startSilenceDetection c now).
Proof.
  apply (chat_frame_arm _ (fun st i => with_silenceTimeoutRef st (Some i))).
  intros st i. cbn. auto.
Qed.

Lemma chat_frame_onerror h now error : chat_frame (onerror h now error).
Proof.
  unfold onerror. repeat case_bool_decide; auto with chat_frame.
  all: apply (chat_frame_arm _ (fun st i => with_retryTimeoutRef st (Some i))).
  all: intros st i; cbn; auto.
Qed.

Lemma chat_frame_retryRestart c r : chat_frame (retryRestart c r).
Proof. unfold retryRestart. destruct r; auto 6 with chat_frame. Qed.

Lemma chat_frame_silencePoll c now : chat_frame (silencePoll c now).
Proof.
  unfold silencePoll. apply chat_frame_read. intros last.
  auto with chat_frame.
Qed.

Lemma chat_frame_fireTimer i now r : chat_frame (fireTimer i now r).
Proof.
  apply chat_frame_read. intros tbl.
  destruct (tbl !! i) as [t|]; [|apply chat_frame_skip].
  destruct (now <? due t); [apply chat_frame_skip|].
  destruct (kind t); apply chat_frame_seq;
    auto using chat_frame_silencePoll, chat_frame_retryRestart; try frame_modify.
Qed.

Lemma chat_frame_try_start throws k : chat_frame k -> chat_frame (try_start throws k).
Proof.
  intros Hk. apply chat_frame_read. intros [h|]; auto with chat_frame.
Qed.

Lemma chat_frame_initializeSpeechRecognition c ok :
  chat_frame (initializeSpeechRecognition c ok).
Proof. destruct ok; cbn; [frame_modify|auto with chat_frame]. Qed.

Lemma chat_frame_toggleRecording a b c : chat_frame (toggleRecording a b c).
Proof.
  intros st. unfold toggleRecording.
  destruct (isSpeechSupported st); cbn [negb]; [|apply chat_frame_alert].
  destruct (isRecording st); [apply chat_frame_stopRecording|].
  revert st. apply chat_frame_seq; [auto with chat_frame|].
  apply chat_frame_try_start. apply chat_frame_seq.
  - apply chat_frame_initializeSpeechRecognition.
  - apply chat_frame_try_start. auto 6 with chat_frame.
Qed.

Lemma chat_frame_recognition_event k :
  (forall h, chat_frame (k h)) -> chat_frame (recognition_event k).
Proof.
  intros H. apply chat_frame_read. intros [h|]; auto with chat_frame.
Qed.

(** Events of the conversation; all others belong to typing, the voice
    controller, its timers and the unmount. *)
Definition conversation_event (ev : Event) : bool :=
  match ev with
  | Submitted _ | Settled _ _ | ResetClicked => true
  | _ => false
  end.

Lemma chat_frame_handle ev :
  conversation_event ev = false -> chat_frame (handle ev).
Proof.
  destruct ev; cbn [conversation_event handle]; try discriminate; intros _.
  - auto with chat_frame.
  - apply chat_frame_toggleRecording.
  - apply chat_frame_recognition_event. intros h. unfold onstart.
    apply chat_frame_seq; [auto with chat_frame|].
    apply chat_frame_seq; [frame_modify|apply chat_frame_startSilenceDetection].
  - apply chat_frame_recognition_event. intros h. unfold onresult.
    apply chat_frame_seq; [auto with chat_frame|frame_modify].
  - apply chat_frame_recognition_event. intros h. unfold onaudiostart. frame_modify.
  - apply chat_frame_recognition_event. intros h. unfold onaudioend.
    apply chat_frame_read. intros last. auto with chat_frame.
  - apply chat_frame_recognition_event. intros h. apply chat_frame_onerror.
  - apply chat_frame_recognition_event. intros h. unfold onend.
    apply chat_frame_read. intros [i|]; auto with chat_frame.
  - apply chat_frame_fireTimer.
  - auto with chat_frame.
Qed.

Lemma persist_same_identity before after :
  messages_identity after = messages_identity before ->
  persist before after = after.
Proof.
  intros H. unfold persist. rewrite bool_decide_eq_true_2; [reflexivity|congruence].
Qed.

Lemma step_chat_frame ev : conversation_event ev = false -> chat_frame (step ev).
Proof.
  intros Hev st. destruct (chat_frame_handle ev Hev st) as (H1 & H2 & H3 & H4 & H5).
  rewrite step_unfold. cbn [fst snd]. rewrite (persist_same_identity _ _ H2). auto.
Qed.

Lemma run_chat_frame evs :
  Forall (fun ev => conversation_event ev = false) evs -> chat_frame (run evs).
Proof.
  intros H. induction H as [|ev evs Hev _ IH]; cbn [run].
  - apply chat_frame_skip.
  - apply chat_frame_seq; [apply step_chat_frame, Hev|exact IH].
Qed.

(** X1. Typing, the microphone button, every event of the recognition
    object, every timer callback and the unmount leave the message
    list, the in-flight flag and the stored conversation as they are and
    send no request, however many of them occur. *)
Theorem voice_events_leave_conversation (evs : list Event) (st : State) :
  Forall (fun ev => conversation_event ev = false) evs ->
  let r := run evs st in
  messages r.1 = messages st /\ isLoading r.1 = isLoading st /\
  storage r.1 = storage st /\ requests r.2 = [].
Proof.
  intros H. destruct (run_chat_frame evs H st) as (? & _ & ? & ? & ?). auto.
Qed.

Lemma voice_events_leave_conversation_witness :
  let evs := [Typed (lit "a dream"); ToggleClicked false true false; RecStart 5;
              RecResult 9 [lit "I"; lit "fell"]; RecError 12 (lit "network");
              TimerFired 2 1012 restart_ok; RecAudioEnd 4000; Unmounted] in
  let r := run evs fresh_session in
  messages r.1 = messages fresh_session /\ isLoading r.1 = isLoading fresh_session /\
  storage r.1 = storage fresh_session /\ requests r.2 = [].
Proof.
  apply voice_events_leave_conversation. repeat constructor.
Defined.

(** ** The stored conversation *)

Lemma handleSubmit_cases st now :
  handleSubmit now st = (st, []) \/
  (trim (input st) <> [] /\ isLoading st = false).
Proof.
  destruct (trim (input st)) as [|c w] eqn:Et.
  - left. apply handleSubmit_guard. auto.
  - destruct (isLoading st) eqn:El.
    + left. apply handleSubmit_guard. auto.
    + right. split; [discriminate|reflexivity].
Qed.

Lemma handleSubmit_accepted_fields st now :
  trim (input st) <> [] -> isLoading st = false ->
  let st' := (handleSubmit now st).1 in
  let s1 := (when (isRecording st) stopRecording st).1 in
  messages_identity st' = N.succ (messages_identity st) /\
  voice_view st' = voice_view s1 /\ isRecording st' = isRecording s1 /\
  isSpeechSupported st' = isSpeechSupported st.
Proof.
  intros Hin Hld. unfold handleSubmit. rewrite Hld.
  destruct (trim (input st)) as [|c w] eqn:Et; [congruence|]. cbn [truthy negb orb].
  destruct (chat_frame_when (isRecording st) _ chat_frame_stopRecording st)
    as (_ & Hid & _).
  assert (Hsup : isSpeechSupported (when (isRecording st) stopRecording st).1 =
                 isSpeechSupported st).
  { destruct (isRecording st); [|reflexivity]. apply stopRecording_frame. }
  unfold seq. destruct (when (isRecording st) stopRecording st) as [s1 e1].
  cbn in *. rewrite Hid. auto.
Qed.

Lemma resetConversation_fields st :
  let st' := (resetConversation st).1 in
  let s1 := (when (isRecording st) stopRecording st).1 in
  messages st' = [] /\ messages_identity st' = N.succ (messages_identity st) /\
  input st' = [] /\ isLoading st' = isLoading st /\
  voice_view st' = voice_view s1 /\ isRecording st' = isRecording s1 /\
  isSpeechSupported st' = isSpeechSupported st /\
  requests (resetConversation st).2 = [].
Proof.
  destruct st as [ms mi inp ld rec sup rr rt sl last tm nx sto].
  destruct rec; [|cbn; repeat split; reflexivity].
  destruct rr, rt, sl; cbn; repeat split; reflexivity.
Qed.

Lemma handleSubmit_settled_identity st now o :
  messages_identity (handleSubmit_settled now o st).1 =
  N.succ (messages_identity st).
Proof. destruct o as [|[] [|d]]; reflexivity. Qed.

(** A handler of the conversation either changes nothing or installs
    another message array. *)
Lemma conversation_event_identity ev st :
  conversation_event ev = true ->
  (handle ev st).1 = st \/
  messages_identity (handle ev st).1 = N.succ (messages_identity st).
Proof.
  destruct ev; cbn [conversation_event handle]; try discriminate; intros _.
  - destruct (handleSubmit_cases st now) as [H|[H1 H2]].
    + left. rewrite H. reflexivity.
    + right. apply handleSubmit_accepted_fields; assumption.
  - right. apply handleSubmit_settled_identity.
  - right. apply resetConversation_fields.
Qed.

Lemma persist_new_identity before after :
  messages_identity after = N.succ (messages_identity before) ->
  persist before after = with_storage after (Some (messages after)).
Proof.
  intros H. unfold persist. rewrite bool_decide_eq_false_2; [reflexivity|].
  rewrite H. lia.
Qed.

Definition mirrored (st : State) : Prop := storage st = Some (messages st).

Lemma mirrored_step ev st : mirrored st -> mirrored (step ev st).1.
Proof.
  unfold mirrored. intros H.
  destruct (conversation_event ev) eqn:Hev.
  - rewrite step_unfold. cbn [fst].
    destruct (conversation_event_identity ev st Hev) as [E|E].
    + rewrite E, persist_same. exact H.
    + rewrite (persist_new_identity _ _ E). reflexivity.
  - destruct (step_chat_frame ev Hev st) as (Hm & _ & _ & Hs & _).
    rewrite Hm, Hs. exact H.
Qed.

Lemma mirrored_run evs : forall st, mirrored st -> mirrored (run evs st).1.
Proof.
  induction evs as [|ev evs IH]; intros st H; [exact H|].
  rewrite run_cons. apply IH, mirrored_step, H.
Qed.

Lemma session_state supported ctor_ok now stored evs :
  (session supported ctor_ok now stored evs).1 =
  (run evs (mount supported ctor_ok now stored).1).1.
Proof.
  unfold session. destruct (mount supported ctor_ok now stored) as [st0 e0].
  cbn. destruct (run evs st0); reflexivity.
Qed.

(** X2. In every session, after every event, the stored conversation is
    the current message list, whatever the store held before the
    mount. *)
Theorem storage_mirrors_messages
    (supported ctor_ok : bool) (now : Z) (stored : option (list Message))
    (evs : list Event) :
  let st := (session supported ctor_ok now stored evs).1 in
  storage st = Some (messages st).
Proof.
  cbn zeta. rewrite session_state. apply mirrored_run.
  destruct supported, ctor_ok; reflexivity.
Qed.

(** X3. Clicking reset empties the message list, the stored conversation
    and the input; afterwards the session is not recording, and a
    request in flight stays in flight. *)
Theorem reset_clears_conversation (st : State) :
  let r := step ResetClicked st in
  messages r.1 = [] /\ storage r.1 = Some [] /\ input r.1 = [] /\
  isRecording r.1 = false /\ isLoading r.1 = isLoading st /\
  requests r.2 = [].
Proof.
  cbn zeta. rewrite step_unfold. cbn [handle fst snd].
  destruct (resetConversation_fields st)
    as (Hm & Hid & Hin & Hld & _ & Hrec & _ & Hq).
  rewrite (persist_new_identity _ _ Hid). unfold with_storage.
  cbn [messages storage input isRecording isLoading].
  rewrite Hm, Hin, Hld, Hrec. repeat split; auto.
  destruct (isRecording st) eqn:E; cbn [when]; [|exact E].
  apply stopRecording_voice.
Qed.

(** ** Growth of the message list *)

Lemma step_appends ev st :
  ev <> ResetClicked ->
  exists added, messages (step ev st).1 = messages st ++ added /\
                (length added <= 1)%nat.
Proof.
  intros Hne. destruct (conversation_event ev) eqn:Hev.
  - rewrite step_messages.
    destruct ev; cbn [conversation_event handle] in *; try discriminate.
    + destruct (handleSubmit_cases st now) as [H|[H1 H2]].
      * exists []. rewrite H, app_nil_r. cbn. auto.
      * destruct (handleSubmit_accepted st now H1 H2) as (Hm & _).
        eexists [_]. rewrite Hm. cbn. auto.
    + destruct (handleSubmit_settled_appends st now o) as (a & Hm & _).
      exists [a]. rewrite Hm. cbn. auto.
    + congruence.
  - exists []. destruct (step_chat_frame ev Hev st) as (Hm & _).
    rewrite Hm, app_nil_r. cbn. auto.
Qed.

(** X4. The message list is append-only: over any events that do not
    include a click on reset, the list before is a prefix of the list
    after, and no message already in it is changed. *)
Theorem messages_append_only (evs : list Event) (st : State) :
  Forall (fun ev => ev <> ResetClicked) evs ->
  messages st `prefix_of` messages (run evs st).1.
Proof.
  intros H. revert st. induction H as [|ev evs Hev _ IH]; intros st.
  - reflexivity.
  - rewrite run_cons. destruct (step_appends ev st Hev) as (added & Hm & _).
    transitivity (messages (step ev st).1); [|apply IH].
    rewrite Hm. apply prefix_app_r. reflexivity.
Qed.

Lemma messages_append_only_witness :
  let st := (run (flat_map submission_events two_submissions) fresh_session).1 in
  messages st `prefix_of`
    messages (run [Typed (lit "more"); RecStart 50; Submitted 60;
                   Settled 70 FetchRejected] st).1.
Proof.
  apply messages_append_only. repeat constructor; discriminate.
Defined.

(** X5. A reset does not cancel the request in flight: when it settles
    after the reset, the reply (or the apology) becomes the only
    message of the emptied conversation, with no user message before
    it, and is stored as such. *)
Theorem reset_then_late_reply (st : State) (now : Z) (o : FetchOutcome) :
  let st' := (run [ResetClicked; Settled now o] st).1 in
  exists a, messages st' = [a] /\ sender a = ai /\ storage st' = Some [a] /\
            isLoading st' = false.
Proof.
  cbn zeta. rewrite !run_cons. cbn [run skip fst].
  destruct (reset_clears_conversation st) as (Hm & _).
  set (s1 := (step ResetClicked st).1) in *.
  destruct (handleSubmit_settled_appends s1 now o) as (a & Ha & Hs & Hl & _).
  exists a. rewrite step_unfold. cbn [handle fst].
  rewrite (persist_new_identity _ _ (handleSubmit_settled_identity s1 now o)).
  unfold with_storage. cbn [messages storage isLoading].
  rewrite Ha, Hm, Hl. auto.
Qed.

(** ** One request at a time *)

Definition is_settled (ev : Event) : bool :=
  match ev with Settled _ _ => true | _ => false end.

Lemma step_unsettled ev st :
  is_settled ev = false ->
  let r := step ev st in
  (isLoading st = true -> isLoading r.1 = true /\ requests r.2 = []) /\
  (isLoading st = false ->
   (isLoading r.1 = false /\ requests r.2 = []) \/
   (isLoading r.1 = true /\ length (requests r.2) = 1%nat)).
Proof.
  intros Hs. cbn zeta. destruct (conversation_event ev) eqn:Hev.
  - rewrite step_isLoading, step_unfold. cbn [snd].
    destruct ev; cbn [conversation_event is_settled handle] in *; try discriminate.
    + destruct (handleSubmit_cases st now) as [H|[H1 H2]].
      * rewrite H. cbn. split; auto.
      * destruct (handleSubmit_accepted st now H1 H2) as (_ & Hl & _ & Hq).
        rewrite Hl, Hq. split; [congruence|]. right. auto.
    + destruct (resetConversation_fields st) as (_ & _ & _ & Hl & _ & _ & _ & Hq).
      rewrite Hl, Hq. split; auto.
  - destruct (step_chat_frame ev Hev st) as (_ & _ & Hl & _ & Hq).
    rewrite Hl, Hq. split; auto.
Qed.

Lemma run_unsettled evs : forall st,
  Forall (fun ev => is_settled ev = false) evs ->
  let r := run evs st in
  (isLoading st = true -> requests r.2 = []) /\
  (length (requests r.2) <= 1)%nat.
Proof.
  induction evs as [|ev evs IH]; intros st H; cbn zeta.
  - cbn. auto.
  - apply Forall_cons in H as [Hev H].
    rewrite run_cons_effects, requests_app, length_app.
    destruct (step_unsettled ev st Hev) as [Ht Hf].
    destruct (IH (step ev st).1 H) as [It Il].
    destruct (isLoading st) eqn:El.
    + destruct Ht as [Hl Hq]; [reflexivity|]. rewrite Hq, (It Hl). cbn. auto.
    + split; [discriminate|].
      destruct Hf as [[Hl Hq]|[Hl Hq]]; [reflexivity| |].
      * rewrite Hq. cbn. exact Il.
      * rewrite Hq, (It Hl). cbn. lia.
Qed.

(** X6. Between two settlements at most one request is sent: over any
    events that include no settlement, at most one request goes out,
    and none at all when one is already in flight. *)
Theorem one_request_until_settled (evs : list Event) (st : State) :
  Forall (fun ev => is_settled ev = false) evs ->
  let r := run evs st in
  (length (requests r.2) <= 1)%nat /\
  (isLoading st = true -> requests r.2 = []).
Proof.
  intros H. destruct (run_unsettled evs st H) as [Ht Hl]. auto.
Qed.

Lemma one_request_until_settled_witness :
  let evs := [Typed (lit "one"); Submitted 1; Typed (lit "two"); Submitted 2;
              RecResult 3 [lit "three"]; Submitted 4; ResetClicked;
              Typed (lit "four"); Submitted 5] in
  (length (requests (run evs fresh_session).2) <= 1)%nat.
Proof.
  refine (proj1 (one_request_until_settled _ fresh_session _)).
  repeat constructor.
Defined.

(** ** Alternation under any interleaving *)

(** Every settlement answers a request in flight, and reset is not
    clicked while one is in flight. *)
Fixpoint disciplined (evs : list Event) (st : State) : bool :=
  match evs with
  | [] => true
  | ev :: rest =>
      match ev with
      | Settled _ _ => isLoading st
      | ResetClicked => negb (isLoading st)
      | _ => true
      end && disciplined rest (step ev st).1
  end.

Definition balanced (st : State) : Prop :=
  alternating (messages st) /\
  Nat.even (length (messages st)) = negb (isLoading st).

Lemma alternating_snoc l m :
  alternating l ->
  sender m = (if Nat.even (length l) then user else ai) ->
  alternating (l ++ [m]).
Proof.
  intros Hl Hm i x Hi.
  destruct (decide (i < length l)%nat) as [Hlt|Hge].
  - rewrite lookup_app_l in Hi by exact Hlt. apply Hl, Hi.
  - rewrite lookup_app_r in Hi by lia.
    destruct (i - length l)%nat as [|k] eqn:Ek; cbn in Hi; [|discriminate].
    injection Hi as <-. assert (i = length l) as -> by lia. exact Hm.
Qed.

Lemma balanced_step ev st :
  balanced st ->
  match ev with
  | Settled _ _ => isLoading st = true
  | ResetClicked => isLoading st = false
  | _ => True
  end ->
  balanced (step ev st).1.
Proof.
  unfold balanced. intros [Ha He] Hd. rewrite step_messages, step_isLoading.
  destruct (conversation_event ev) eqn:Hev.
  - destruct ev; cbn [conversation_event handle] in *; try discriminate.
    + destruct (handleSubmit_cases st now) as [H|[H1 H2]].
      * rewrite H. auto.
      * destruct (handleSubmit_accepted st now H1 H2) as (Hm & Hl & _).
        rewrite Hm, Hl, length_app, Nat.add_1_r, Nat.even_succ, <- Nat.negb_even.
        rewrite H2 in He. rewrite He. split; [|reflexivity].
        apply alternating_snoc; [exact Ha|]. rewrite He. reflexivity.
    + destruct (handleSubmit_settled_appends st now o) as (a & Hm & Hs & Hl & _).
      rewrite Hm, Hl, length_app, Nat.add_1_r, Nat.even_succ, <- Nat.negb_even.
      rewrite Hd in He. rewrite He. split; [|reflexivity].
      apply alternating_snoc; [exact Ha|]. rewrite He. exact Hs.
    + destruct (resetConversation_fields st) as (Hm & _ & _ & Hl & _).
      rewrite Hm, Hl, Hd. split; [|reflexivity].
      intros i m Hi. destruct i; discriminate.
  - destruct (chat_frame_handle ev Hev st) as (Hm & _ & Hl & _).
    rewrite Hm, Hl. auto.
Qed.

Lemma balanced_run evs : forall st,
  balanced st -> disciplined evs st = true -> balanced (run evs st).1.
Proof.
  induction evs as [|ev evs IH]; intros st Hb Hd; [exact Hb|].
  cbn [disciplined] in Hd. apply andb_true_iff in Hd as [H1 H2].
  rewrite run_cons. apply IH; [|exact H2]. apply balanced_step; [exact Hb|].
  destruct ev; auto. apply negb_true_iff in H1. exact H1.
Qed.

(** X7. In a session where every settlement answers a request in flight
    and reset is not clicked while one is in flight, the messages
    alternate user, assistant after every event, whatever voice,
    typing and timer events come in between; the list has even length
    exactly when no request is in flight. *)
Theorem session_messages_alternate
    (supported ctor_ok : bool) (now : Z) (stored : option (list Message))
    (evs : list Event) :
  disciplined evs (mount supported ctor_ok now stored).1 = true ->
  let st := (session supported ctor_ok now stored evs).1 in
  alternating (messages st) /\
  Nat.even (length (messages st)) = negb (isLoading st).
Proof.
  intros Hd. cbn zeta. rewrite session_state. apply balanced_run; [|exact Hd].
  split.
  - destruct supported, ctor_ok; intros [|i] m Hi; discriminate.
  - destruct supported, ctor_ok; reflexivity.
Qed.

Lemma session_messages_alternate_witness :
  let evs := [ToggleClicked false true false; RecStart 5;
              RecResult 9 [lit "I"; lit "fell"]; Submitted 20; RecEnd;
              Typed (lit "again"); Submitted 25; Settled 40 (Response false BodyRejected);
              ResetClicked; Typed (lit "x"); Submitted 50] in
  let st := (session true true 0 None evs).1 in
  alternating (messages st) /\
  Nat.even (length (messages st)) = negb (isLoading st).
Proof.
  apply session_messages_alternate. vm_compute. reflexivity.
Defined.

(** ** What a user message holds *)

Lemma trimStart_head s c r : trimStart s = c :: r -> isWhiteSpace c = false.
Proof.
  induction s as [|x s IH]; cbn; [discriminate|].
  destruct (isWhiteSpace x) eqn:Ex; [exact IH|].
  intros [= <- _]. exact Ex.
Qed.

Lemma trimStart_snoc l c k :
  isWhiteSpace c = false -> trimStart (l ++ c :: k) = trimStart l ++ c :: k.
Proof.
  intros Hc. induction l as [|x l IH]; cbn.
  - rewrite Hc. reflexivity.
  - destruct (isWhiteSpace x); [exact IH|reflexivity].
Qed.

Lemma trimEnd_head c r :
  isWhiteSpace c = false -> trimEnd (c :: r) = c :: trimEnd r.
Proof.
  intros Hc. unfold trimEnd. cbn [rev].
  rewrite (trimStart_snoc _ _ [] Hc), rev_app_distr. reflexivity.
Qed.

Lemma trimEnd_last s c : last (trimEnd s) = Some c -> isWhiteSpace c = false.
Proof.
  unfold trimEnd. destruct (trimStart (rev s)) as [|x t] eqn:E; [discriminate|].
  cbn [rev]. rewrite last_snoc. intros [= <-]. eapply trimStart_head, E.
Qed.

(** Non-empty, and neither the first nor the last code unit is white
    space. *)
Definition trimmed (s : jsstring) : Prop :=
  s <> [] /\
  (forall c, head s = Some c -> isWhiteSpace c = false) /\
  (forall c, last s = Some c -> isWhiteSpace c = false).

Lemma trim_trimmed s : trim s <> [] -> trimmed (trim s).
Proof.
  intros Hne. split; [exact Hne|]. split.
  - unfold trim in *. destruct (trimStart s) as [|x t] eqn:E.
    + intros c. cbn. discriminate.
    + pose proof (trimStart_head _ _ _ E) as Hx.
      rewrite (trimEnd_head _ _ Hx). cbn. intros c [= <-]. exact Hx.
  - intros c. unfold trim. apply trimEnd_last.
Qed.

Definition user_content_trimmed (m : Message) : Prop :=
  sender m = user -> trimmed (content m).

Lemma step_user_content ev st :
  Forall user_content_trimmed (messages st) ->
  Forall user_content_trimmed (messages (step ev st).1).
Proof.
  intros H. rewrite step_messages.
  destruct (conversation_event ev) eqn:Hev.
  - destruct ev; cbn [conversation_event handle] in *; try discriminate.
    + destruct (handleSubmit_cases st now) as [E|[H1 H2]].
      * rewrite E. exact H.
      * destruct (handleSubmit_accepted st now H1 H2) as (Hm & _).
        rewrite Hm. apply Forall_app. split; [exact H|].
        constructor; [|constructor]. intros _. cbn. apply trim_trimmed, H1.
    + destruct (handleSubmit_settled_appends st now o) as (a & Hm & Hs & _).
      rewrite Hm. apply Forall_app. split; [exact H|].
      constructor; [|constructor]. intros Hu. congruence.
    + destruct (resetConversation_fields st) as (Hm & _). rewrite Hm. constructor.
  - destruct (chat_frame_handle ev Hev st) as (Hm & _). rewrite Hm. exact H.
Qed.

(** X8. In every session, every user message in the list has a content
    that is non-empty and neither begins nor ends with white space:
    blank text is never recorded and surrounding white space never
    kept. *)
Theorem user_messages_are_trimmed
    (supported ctor_ok : bool) (now : Z) (stored : option (list Message))
    (evs : list Event) :
  Forall user_content_trimmed
         (messages (session supported ctor_ok now stored evs).1).
Proof.
  rewrite session_state.
  assert (H0 : Forall user_content_trimmed
                      (messages (mount supported ctor_ok now stored).1)).
  { destruct supported, ctor_ok; constructor. }
  revert H0. generalize (mount supported ctor_ok now stored).1.
  induction evs as [|ev evs IH]; intros st H; [exact H|].
  rewrite run_cons. apply IH, step_user_content, H.
Qed.

(** ** What raises the recording flag and the support flag *)

Definition never_raises (f : State -> bool) (c : Cmd) : Prop :=
  forall st, f (c st).1 = true -> f st = true.

Create HintDb never_raises.

Section NeverRaises.
Variable f : State -> bool.
Hypothesis f_flag : f = isRecording \/ f = isSpeechSupported.

Lemma never_raises_skip : never_raises f skip.
Proof. intros st H. exact H. Qed.

Lemma never_raises_emit e : never_raises f (emit e).
Proof. intros st H. exact H. Qed.

Lemma never_raises_seq a b :
  never_raises f a -> never_raises f b -> never_raises f (a ;; b).
Proof.
  intros Ha Hb st. unfold seq. specialize (Ha st).
  destruct (a st) as [s1 e1]. specialize (Hb s1).
  destruct (b s1) as [s2 e2]. cbn in *. auto.
Qed.

Lemma never_raises_when c a : never_raises f a -> never_raises f (when c a).
Proof. destruct c; cbn; auto using never_raises_skip. Qed.

Lemma never_raises_read {A} (g : State -> A) k :
  (forall x, never_raises f (k x)) -> never_raises f (read g k).
Proof. intros H st. apply H. Qed.

Lemma never_raises_modify g :
  (forall st, isRecording (g st) = true -> isRecording st = true) ->
  (forall st, isSpeechSupported (g st) = true -> isSpeechSupported st = true) ->
  never_raises f (modify g).
Proof. intros H1 H2 st. destruct f_flag as [-> | ->]; cbn; auto. Qed.

Lemma never_raises_setTimer t k :
  (forall i, never_raises f (k i)) -> never_raises f (setTimer t k).
Proof.
  intros H st Hf. unfold setTimer in Hf. apply H in Hf.
  destruct f_flag as [-> | ->]; exact Hf.
Qed.

Lemma never_raises_stopRecording : never_raises f stopRecording.
Proof.
  intros st. destruct (stopRecording_voice st) as (_ & _ & _ & Hr & _).
  destruct (stopRecording_frame st) as (_ & _ & _ & _ & _ & Hs & _).
  destruct f_flag as [-> | ->]; congruence.
Qed.

Ltac raise_modify :=
  apply never_raises_modify; intros ?; cbn; solve [auto | discriminate].

Lemma never_raises_clear_ref (g : State -> option positive) :
  never_raises f (read g (fun r =>
    match r with Some i => clearTimer i | None => skip end)).
Proof.
  apply never_raises_read. intros [i|]; [raise_modify|apply never_raises_skip].
Qed.

Lemma never_raises_setInput v : never_raises f (setInput v).
Proof. raise_modify. Qed.

Lemma never_raises_setMessages g : never_raises f (setMessages g).
Proof. raise_modify. Qed.

Lemma never_raises_setIsLoading v : never_raises f (setIsLoading v).
Proof. raise_modify. Qed.

Lemma never_raises_lower_recording : never_raises f (setIsRecording false).
Proof. raise_modify. Qed.

Lemma never_raises_lower_support : never_raises f (setIsSpeechSupported false).
Proof. raise_modify. Qed.

Hint Resolve never_raises_skip never_raises_emit never_raises_seq
  never_raises_when never_raises_stopRecording never_raises_clear_ref
  never_raises_setInput never_raises_setMessages never_raises_setIsLoading
  never_raises_lower_recording never_raises_lower_support : never_raises.

Lemma never_raises_startSilenceDetection c now :
  never_raises f (startSilenceDetection c now).
Proof.
  unfold startSilenceDetection. apply never_raises_seq; [auto with never_raises|].
  apply never_raises_setTimer. intros i. raise_modify.
Qed.

Lemma never_raises_onerror h now error : never_raises f (onerror h now error).
Proof.
  unfold onerror. repeat case_bool_decide; auto with never_raises.
  apply never_raises_seq; [auto with never_raises|].
  apply never_raises_setTimer. intros i. raise_modify.
Qed.

Lemma never_raises_fireTimer i now r : never_raises f (fireTimer i now r).
Proof.
  apply never_raises_read. intros tbl.
  destruct (tbl !! i) as [t|]; [|apply never_raises_skip].
  destruct (now <? due t); [apply never_raises_skip|].
  destruct (kind t); apply never_raises_seq; try raise_modify.
  - unfold silencePoll. apply never_raises_read. intros last.
    auto with never_raises.
  - unfold retryRestart. destruct r; auto 6 with never_raises.
Qed.

Lemma never_raises_try_start throws k :
  never_raises f k -> never_raises f (try_start throws k).
Proof.
  intros Hk. apply never_raises_read. intros [h|]; auto with never_raises.
Qed.

Lemma never_raises_toggleRecording a b c : never_raises f (toggleRecording a b c).
Proof.
  intros st. unfold toggleRecording.
  destruct (isSpeechSupported st); cbn [negb]; [|apply never_raises_emit].
  destruct (isRecording st); [apply never_raises_stopRecording|].
  revert st. apply never_raises_seq; [auto with never_raises|].
  apply never_raises_try_start. apply never_raises_seq.
  - destruct b; cbn; [raise_modify|auto with never_raises].
  - apply never_raises_try_start. auto 6 with never_raises.
Qed.

Lemma never_raises_handleSubmit now : never_raises f (handleSubmit now).
Proof.
  intros st. unfold handleSubmit.
  destruct (negb (truthy (trim (input st))) || isLoading st);
    [apply never_raises_skip|].
  set (u := mkMessage (toString now) (trim (input st)) user now).
  set (l := formatConversationHistory (messages st ++ [u])).
  set (c := isRecording st). clearbody c l. clearbody u. revert st.
  repeat (apply never_raises_seq; [auto with never_raises|]).
  auto with never_raises.
Qed.

Lemma never_raises_handleSubmit_settled now o :
  never_raises f (handleSubmit_settled now o).
Proof.
  unfold handleSubmit_settled. apply never_raises_seq; [|auto with never_raises].
  destruct o as [|[] [|d]]; auto with never_raises.
Qed.

Lemma never_raises_resetConversation : never_raises f resetConversation.
Proof.
  intros st. unfold resetConversation. generalize (isRecording st). intros c.
  revert st. apply never_raises_seq; [auto with never_raises|].
  apply never_raises_seq; [raise_modify|]. auto with never_raises.
Qed.

Definition is_rec_start (ev : Event) : bool :=
  match ev with RecStart _ => true | _ => false end.

Lemma never_raises_handle ev :
  (f = isRecording -> is_rec_start ev = false) -> never_raises f (handle ev).
Proof.
  intros Hs. destruct ev; cbn [handle].
  - auto with never_raises.
  - apply never_raises_handleSubmit.
  - apply never_raises_handleSubmit_settled.
  - apply never_raises_resetConversation.
  - apply never_raises_toggleRecording.
  - apply never_raises_read. intros [h|]; [|apply never_raises_skip].
    destruct f_flag as [-> | Hf]; [specialize (Hs eq_refl); discriminate|].
    unfold onstart. apply never_raises_seq; [subst f; intros st H; exact H|].
    apply never_raises_seq; [raise_modify|apply never_raises_startSilenceDetection].
  - apply never_raises_read. intros [h|]; [|apply never_raises_skip].
    unfold onresult. apply never_raises_seq; [auto with never_raises|raise_modify].
  - apply never_raises_read. intros [h|]; [|apply never_raises_skip]. raise_modify.
  - apply never_raises_read. intros [h|]; [|apply never_raises_skip].
    unfold onaudioend. apply never_raises_read. intros last.
    auto with never_raises.
  - apply never_raises_read. intros [h|]; [|apply never_raises_skip].
    apply never_raises_onerror.
  - apply never_raises_read. intros [h|]; [|apply never_raises_skip].
    unfold onend. apply never_raises_read. intros [i|]; auto with never_raises.
  - apply never_raises_fireTimer.
  - auto with never_raises.
Qed.

Lemma never_raises_step ev :
  (f = isRecording -> is_rec_start ev = false) -> never_raises f (step ev).
Proof.
  intros Hs st. rewrite step_unfold. cbn [fst].
  destruct (persist_frame st (handle ev st).1)
    as (_ & _ & _ & _ & Hr & Hp & _).
  intros H. apply (never_raises_handle ev Hs).
  destruct f_flag as [-> | ->]; congruence.
Qed.

End NeverRaises.

Lemma flags_differ : isSpeechSupported <> isRecording.
Proof.
  intros H.
  assert (E : isSpeechSupported (with_isRecording (mount false true 0 None).1 true) =
              isRecording (with_isRecording (mount false true 0 None).1 true))
    by (rewrite H; reflexivity).
  vm_compute in E. discriminate E.
Qed.

(** X9. Only the start event of the recognition object turns recording
    on: over any events that include no such start, a session that is
    not recording stays not recording; in particular a click on the
    microphone button does not by itself show the session as
    recording. *)
Theorem recording_starts_only_on_onstart (evs : list Event) (st : State) :
  Forall (fun ev => is_rec_start ev = false) evs ->
  isRecording st = false ->
  isRecording (run evs st).1 = false.
Proof.
  intros H. revert st. induction H as [|ev evs Hev _ IH]; intros st Hr.
  - exact Hr.
  - rewrite run_cons. apply IH.
    destruct (isRecording (step ev st).1) eqn:E; [|reflexivity].
    apply (never_raises_step isRecording (or_introl eq_refl) ev (fun _ => Hev)) in E.
    congruence.
Qed.

Lemma recording_starts_only_on_onstart_witness :
  isRecording
    (run [ToggleClicked false true false; RecAudioStart 3;
          RecResult 4 [lit "hello"]; RecError 5 (lit "network");
          TimerFired 1 1005 restart_ok; Typed (lit "x"); Submitted 2000]
         fresh_session).1 = false.
Proof.
  apply recording_starts_only_on_onstart.
  - repeat constructor.
  - reflexivity.
Defined.

(** X10. Unsupported is final: once speech input is marked unsupported
    no event marks it supported again, and every later click on the
    microphone button only raises the notice and changes nothing. *)
Theorem unsupported_is_final
    (evs : list Event) (st : State) (start_throws ctor_ok retry_throws : bool) :
  isSpeechSupported st = false ->
  let st' := (run evs st).1 in
  isSpeechSupported st' = false /\
  step (ToggleClicked start_throws ctor_ok retry_throws) st' =
    (st', [Alert not_supported]).
Proof.
  intros Hs. cbn zeta.
  assert (H : isSpeechSupported (run evs st).1 = false).
  { revert st Hs. induction evs as [|ev evs IH]; intros st Hs; [exact Hs|].
    rewrite run_cons. apply IH.
    destruct (isSpeechSupported (step ev st).1) eqn:E; [|reflexivity].
    apply (never_raises_step isSpeechSupported (or_intror eq_refl) ev) in E;
      [congruence|intros Hf; destruct (flags_differ Hf)]. }
  split; [exact H|].
  rewrite step_unfold. cbn [handle]. unfold toggleRecording. rewrite H. cbn.
  rewrite persist_same. reflexivity.
Qed.

Lemma unsupported_is_final_witness :
  let st := (step (RecError 50 (lit "not-allowed")) listening_session).1 in
  let st' := (run [RecEnd; Typed (lit "x"); ToggleClicked false true false;
                   RecStart 70] st).1 in
  isSpeechSupported st' = false /\
  step (ToggleClicked false true false) st' = (st', [Alert not_supported]).
Proof.
  apply unsupported_is_final. reflexivity.
Defined.

(** ** Timers and stopping *)

(** X11. In every session the timer table holds at most one silence
    interval and at most one restart timeout: starting again or a
    further network error replaces the timer, it never stacks one. *)
Theorem one_timer_of_each_kind
    (supported ctor_ok : bool) (now : Z) (stored : option (list Message))
    (evs : list Event) (i j : positive) (ti tj : Timer) :
  let st := (session supported ctor_ok now stored evs).1 in
  timers st !! i = Some ti -> timers st !! j = Some tj ->
  kind ti = kind tj -> i = j.
Proof.
  cbn zeta. intros Ei Ej Hk.
  pose proof (Inv_session supported ctor_ok now stored evs) as HI.
  destruct (inv_owned _ HI i ti Ei) as [[Ki Hi]|[Ki Hi]];
    destruct (inv_owned _ HI j tj Ej) as [[Kj Hj]|[Kj Hj]]; congruence.
Qed.

Definition restarted_session_events : list Event :=
  [ToggleClicked false true false; RecStart 0; RecStart 10;
   RecError 20 (lit "network"); RecStart 30; RecError 40 (lit "network")].

Lemma one_timer_of_each_kind_witness :
  let st := (session true true 0 None restarted_session_events).1 in
  timers st !! 4%positive = Some (mkTimer SilencePoll false 530) /\
  timers st !! 5%positive = Some (mkTimer RetryRestart false 1040) /\
  timers st !! 1%positive = None /\ timers st !! 3%positive = None /\
  4%positive = 4%positive.
Proof.
  cbn zeta. repeat (split; [reflexivity|]).
  apply (one_timer_of_each_kind true true 0 None restarted_session_events
           4%positive 4%positive (mkTimer SilencePoll false 530)
           (mkTimer SilencePoll false 530)); reflexivity.
Defined.

(** X12. Stopping is idempotent: a second [stopRecording] leaves the
    state exactly as the first one left it. *)
Theorem stopRecording_idempotent (st : State) :
  (stopRecording (stopRecording st).1).1 = (stopRecording st).1.
Proof.
  destruct st as [ms mi inp ld rec sup rr rt sl last tm nx sto].
  destruct rr, rt as [j|], sl as [i|]; cbn;
    unfold with_timers, with_isRecording, with_retryTimeoutRef; cbn;
    f_equal; try reflexivity.
  all: try (rewrite (delete_delete _ i j), delete_delete_eq; reflexivity).
  all: rewrite delete_delete_eq; reflexivity.
Qed.

Lemma accepted_submit_voice st now :
  trim (input st) <> [] -> isLoading st = false ->
  let r := handleSubmit now st in
  isRecording r.1 = false \/ isRecording st = false.
Proof.
  intros H1 H2. cbn zeta.
  destruct (handleSubmit_accepted_fields st now H1 H2) as (_ & _ & Hr & _).
  destruct (isRecording st) eqn:E; [left|right; reflexivity].
  rewrite Hr. cbn [when]. apply stopRecording_voice.
Qed.

(** X13. A submission wins over the capture: in every session, an
    accepted submit leaves the session not recording, and if it was
    recording, with an empty timer table. *)
Theorem submit_stops_recording
    (supported ctor_ok : bool) (t0 : Z) (stored : option (list Message))
    (evs : list Event) (now : Z) :
  let st := (session supported ctor_ok t0 stored evs).1 in
  trim (input st) <> [] -> isLoading st = false ->
  let r := step (Submitted now) st in
  isRecording r.1 = false /\
  (isRecording st = true -> timers r.1 = ∅ /\ retryTimeoutRef r.1 = None).
Proof.
  cbn zeta. intros H1 H2.
  pose proof (Inv_session supported ctor_ok t0 stored evs) as HI.
  set (st := (session supported ctor_ok t0 stored evs).1) in *.
  rewrite step_unfold. cbn [handle fst snd].
  destruct (persist_frame st (handleSubmit now st).1)
    as (_ & _ & _ & _ & -> & _ & _ & -> & _ & _ & -> & _).
  destruct (handleSubmit_accepted_fields st now H1 H2) as (_ & Hv & Hr & _).
  unfold voice_view in Hv. injection Hv as _ Hrt _ Ht. rewrite Hr, Ht, Hrt.
  destruct (isRecording st) eqn:E; cbn [when].
  - destruct (stopRecording_clears st HI) as (Hc & Hn & Hf). auto.
  - split; [exact E|discriminate].
Qed.

Lemma submit_stops_recording_witness :
  let st := (session true true 0 None
               [ToggleClicked false true false; RecStart 0;
                RecResult 5 [lit "I was"; lit "flying"];
                RecError 8 (lit "network")]).1 in
  isRecording st = true /\
  isRecording (step (Submitted 9) st).1 = false /\
  timers (step (Submitted 9) st).1 = ∅.
Proof.
  cbn zeta. split; [reflexivity|].
  pose proof (submit_stops_recording true true 0 None
    [ToggleClicked false true false; RecStart 0;
     RecResult 5 [lit "I was"; lit "flying"]; RecError 8 (lit "network")] 9) as H.
  cbn zeta in H. destruct H as [Hr Ht].
  - vm_compute. discriminate.
  - reflexivity.
  - split; [exact Hr|]. apply Ht. reflexivity.
Defined.

(** X14. A click on the microphone button while recording stops the
    session: in every session it leaves the session not recording with
    an empty timer table, and keeps the transcript in the input and
    the conversation as they are. *)
Theorem toggle_while_recording_stops
    (supported ctor_ok : bool) (t0 : Z) (stored : option (list Message))
    (evs : list Event) (a b c : bool) :
  let st := (session supported ctor_ok t0 stored evs).1 in
  isSpeechSupported st = true -> isRecording st = true ->
  let r := step (ToggleClicked a b c) st in
  isRecording r.1 = false /\ timers r.1 = ∅ /\
  input r.1 = input st /\ messages r.1 = messages st.
Proof.
  cbn zeta. intros Hs Hr.
  pose proof (Inv_session supported ctor_ok t0 stored evs) as HI.
  set (st := (session supported ctor_ok t0 stored evs).1) in *.
  rewrite step_unfold. cbn [handle fst].
  destruct (persist_frame st (toggleRecording a b c st).1)
    as (-> & _ & -> & _ & -> & _ & _ & _ & _ & _ & -> & _).
  unfold toggleRecording. rewrite Hs, Hr. cbn [negb].
  destruct (stopRecording_clears st HI) as (Hc & _ & Hf).
  destruct (stopRecording_frame st) as (Hm & _ & Hi & _). auto.
Qed.

Lemma toggle_while_recording_stops_witness :
  let st := (session true true 0 None
               [ToggleClicked false true false; RecStart 0;
                RecResult 5 [lit "I was"; lit "flying"]]).1 in
  let r := step (ToggleClicked false true false) st in
  isRecording r.1 = false /\ timers r.1 = ∅ /\
  input r.1 = lit "I was flying" /\ messages r.1 = [].
Proof.
  apply (toggle_while_recording_stops true true 0 None
           [ToggleClicked false true false; RecStart 0;
            RecResult 5 [lit "I was"; lit "flying"]] false true false);
    reflexivity.
Defined.

(** X15. When the start call throws and the call after
    re-initialisation throws too, the click ends with speech input
    marked unsupported, the session not recording, the input cleared
    and one notice raised; the recognition object was asked to start
    twice, whether or not re-initialisation itself succeeded. *)
Theorem toggle_gives_up_after_second_throw
    (st : State) (h : Handlers) (ctor_ok : bool) :
  isSpeechSupported st = true -> isRecording st = false ->
  recognitionRef st = Some h ->
  let r := step (ToggleClicked true ctor_ok true) st in
  isSpeechSupported r.1 = false /\ isRecording r.1 = false /\ input r.1 = [] /\
  r.2 = [RecognitionStart; RecognitionStart; Alert failed_to_start].
Proof.
  intros Hs Hr Hh. cbn zeta. rewrite step_unfold. cbn [handle fst snd].
  destruct (persist_frame st (toggleRecording true ctor_ok true st).1)
    as (_ & _ & -> & _ & -> & -> & _).
  destruct st as [ms mi inp ld rec sup rr rt sl last tm nx sto].
  cbn in Hs, Hr, Hh. subst sup rec rr.
  destruct ctor_ok; cbn; auto.
Qed.

Lemma toggle_gives_up_after_second_throw_witness :
  let r := step (ToggleClicked true false true) fresh_session in
  isSpeechSupported r.1 = false /\ isRecording r.1 = false /\ input r.1 = [] /\
  r.2 = [RecognitionStart; RecognitionStart; Alert failed_to_start].
Proof.
  apply (toggle_gives_up_after_second_throw fresh_session (mkHandlers false) false);
    reflexivity.
Defined.

(** X16. Sound keeps the session alive: after a result event (which
    replaces the input by the transcripts joined with spaces) or an
    audio-start event at time [now], an audio-end signal less than
    3000 ms later changes nothing. *)
Theorem recent_sound_keeps_listening
    (st : State) (h : Handlers) (now t : Z) (results : list jsstring) :
  recognitionRef st = Some h -> t - now < 3000 ->
  let s1 := (step (RecResult now results) st).1 in
  let s2 := (step (RecAudioStart now) st).1 in
  input s1 = join (lit " ") results /\
  step (RecAudioEnd t) s1 = (s1, []) /\
  step (RecAudioEnd t) s2 = (s2, []).
Proof.
  intros Hh Ht. cbn zeta.
  assert (Hlt : (3000 <=? t - now) = false) by (apply Z.leb_gt; exact Ht).
  rewrite !(step_unfold (RecResult now results)), !(step_unfold (RecAudioStart now)).
  cbn [handle fst]. unfold recognition_event, read. rewrite Hh.
  rewrite !persist_same_identity by reflexivity.
  split; [reflexivity|]. split.
  - rewrite step_unfold. cbn [handle]. unfold recognition_event, read.
    change (recognitionRef (onresult now results st).1) with (recognitionRef st).
    rewrite Hh. unfold onaudioend, read.
    change (lastSoundTimestampRef (onresult now results st).1) with now.
    cbn zeta. rewrite Hlt. cbn. rewrite persist_same. reflexivity.
  - rewrite step_unfold. cbn [handle]. unfold recognition_event, read.
    change (recognitionRef (onaudiostart now st).1) with (recognitionRef st).
    rewrite Hh. unfold onaudioend, read.
    change (lastSoundTimestampRef (onaudiostart now st).1) with now.
    cbn zeta. rewrite Hlt. cbn. rewrite persist_same. reflexivity.
Qed.

Lemma recent_sound_keeps_listening_witness :
  let s1 := (step (RecResult 2000 [lit "I"; lit "was"; lit "flying"])
                  listening_session).1 in
  input s1 = lit "I was flying" /\
  step (RecAudioEnd 4999) s1 = (s1, []) /\
  isRecording s1 = true.
Proof.
  cbn zeta.
  destruct (recent_sound_keeps_listening listening_session (mkHandlers false)
              2000 4999 [lit "I"; lit "was"; lit "flying"]) as (H1 & H2 & _).
  - reflexivity.
  - reflexivity.
  - split; [exact H1|]. split; [exact H2|reflexivity].
Defined.

(** X17. The error handler of [src/App.tsx] and the one of the earlier
    copy of the component agree on every error other than
    'not-allowed'. *)
Theorem onerror_agrees_with_earlier_copy
    (h : Handlers) (now : Z) (error : jsstring) (st : State) :
  error <> lit "not-allowed" ->
  onerror h now error st = onerror_part_000 h now error st.
Proof.
  intros H. unfold onerror, onerror_part_000.
  rewrite (bool_decide_eq_false_2 _ H). reflexivity.
Qed.

Lemma onerror_agrees_with_earlier_copy_witness :
  onerror (mkHandlers false) 7 (lit "network") listening_session =
  onerror_part_000 (mkHandlers false) 7 (lit "network") listening_session.
Proof.
  apply onerror_agrees_with_earlier_copy. vm_compute. discriminate.
Defined.

(** ** Copying a reply: [handleCopy] and [copiedId]

    [copiedId] and the timeouts of [handleCopy] interact with nothing
    else in the component, so they are embedded on their own: the state
    is [copiedId] with the due times of the pending
    [setTimeout(() => setCopiedId(null), 2000)] calls, oldest first. *)

Module Copy.

Record CopyState := mkCopyState {
  copiedId : option jsstring;
  pending : list Z
}.

Inductive CopyEffect :=
| ClipboardWrite (content : jsstring)
| CopyAlert (text : jsstring).

Definition failed_to_copy : jsstring := lit "Failed to copy text to clipboard".

(** [handleCopy(content, messageId)]; [write_ok] says whether the
    awaited [navigator.clipboard.writeText] resolves, [now] is the time
    at which it settles. *)
Definition handleCopy (write_ok : bool) (now : Z) (content messageId : jsstring)
    (cs : CopyState) : CopyState * list CopyEffect :=
  if write_ok then
    (mkCopyState (Some messageId) (pending cs ++ [now + 2000]),
     [ClipboardWrite content])
  else
    (cs, [ClipboardWrite content; CopyAlert failed_to_copy]).

(** The oldest pending timeout runs, if it is due. *)
Definition timeoutFired (now : Z) (cs : CopyState) : CopyState :=
  match pending cs with
  | [] => cs
  | d :: rest => if now <? d then cs else mkCopyState None rest
  end.

Fixpoint timeoutsFired (n : nat) (now : Z) (cs : CopyState) : CopyState :=
  match n with
  | O => cs
  | S n' => timeoutsFired n' now (timeoutFired now cs)
  end.




(** X19. The timeout of an earlier copy also clears the mark of a later
    one: with nothing pending, after a copy at [t1] and a second copy
    at a later [t2] less than two seconds after the first, the timeouts
    that run at [t1 + 2000] clear the mark set by the second copy, and
    that copy's own timeout is still pending, not yet due. *)
Theorem earlier_timeout_clears_later_mark
    (t1 t2 : Z) (c1 id1 c2 id2 : jsstring) :
  t1 < t2 -> t2 < t1 + 2000 ->
  let s2 := (handleCopy true t2 c2 id2
               (handleCopy true t1 c1 id1 (mkCopyState None [])).1).1 in
  copiedId s2 = Some id2 /\
  timeoutsFired 2 (t1 + 2000) s2 = mkCopyState None [t2 + 2000].
Proof.
  intros H1 H2. cbn zeta. cbn. split; [reflexivity|].
  unfold timeoutFired. cbn [pending]. rewrite Z.ltb_irrefl. cbn [pending].
  rewrite (proj2 (Z.ltb_lt (t1 + 2000) (t2 + 2000))) by lia. reflexivity.
Qed.

Lemma earlier_timeout_clears_later_mark_witness :
  let s2 := (handleCopy true 1500 (lit "b") (lit "a2")
               (handleCopy true 0 (lit "a") (lit "a1") (mkCopyState None [])).1).1 in
  copiedId s2 = Some (lit "a2") /\
  timeoutsFired 2 2000 s2 = mkCopyState None [3500].
Proof.
  apply (earlier_timeout_clears_later_mark 0 1500 (lit "a") (lit "a1")
           (lit "b") (lit "a2")); reflexivity.
Defined.

End Copy.

(** ** The mount *)

(** X20. Whatever the store held, a mount starts blank: no messages, an
    empty stored conversation, empty input, nothing in flight, not
    recording, no timer, no outside call; speech input is supported,
    and a recognition object installed, exactly when the probe finds
    the capability and constructing the object succeeds. *)
Theorem mount_starts_blank
    (supported ctor_ok : bool) (now : Z) (stored : option (list Message)) :
  let r := mount supported ctor_ok now stored in
  messages r.1 = [] /\ storage r.1 = Some [] /\ input r.1 = [] /\
  isLoading r.1 = false /\ isRecording r.1 = false /\ timers r.1 = ∅ /\
  isSpeechSupported r.1 = supported && ctor_ok /\
  recognitionRef r.1 =
    (if supported && ctor_ok then Some (mkHandlers false) else None) /\
  r.2 = [].
Proof. destruct supported, ctor_ok; cbn; repeat split; reflexivity. Qed.

(** ** The history sent with a request *)

Lemma step_requests ev st :
  requests (step ev st).2 = [] \/
  exists text,
    requests (step ev st).2 =
      [mkChatRequest text (formatConversationHistory (messages (step ev st).1))].
Proof.
  rewrite step_messages, step_unfold. cbn [snd].
  destruct (conversation_event ev) eqn:Hev.
  - destruct ev; cbn [conversation_event handle] in *; try discriminate.
    + destruct (handleSubmit_cases st now) as [E|[H1 H2]].
      * left. rewrite E. reflexivity.
      * right. destruct (handleSubmit_accepted st now H1 H2) as (Hm & _ & _ & Hq).
        rewrite Hm, Hq. eauto.
    + left. destruct (handleSubmit_settled_appends st now o) as (a & _ & _ & _ & E).
      rewrite E. reflexivity.
    + left. apply resetConversation_fields.
  - left. apply (chat_frame_handle ev Hev st).
Qed.

Lemma formatConversationHistory_prefix l1 l2 :
  l1 `prefix_of` l2 ->
  formatConversationHistory l1 `prefix_of` formatConversationHistory l2.
Proof.
  intros [k ->]. unfold formatConversationHistory. rewrite map_app.
  apply prefix_app_r. reflexivity.
Qed.

(** X21. The history sent is cumulative: over any events that do not
    include a click on reset, the conversation carried by every request
    is a prefix of the projection of the final message list, so each
    request extends what the earlier ones carried. *)
Theorem request_history_is_prefix (evs : list Event) (st : State) (req : ChatRequest) :
  Forall (fun ev => ev <> ResetClicked) evs ->
  req ∈ requests (run evs st).2 ->
  req_conversation req `prefix_of`
    formatConversationHistory (messages (run evs st).1).
Proof.
  intros H. revert st. induction H as [|ev evs Hev Hrest IH]; intros st Hin.
  - cbn in Hin. apply elem_of_nil in Hin. contradiction.
  - rewrite run_cons_effects, requests_app in Hin. rewrite run_cons.
    apply elem_of_app in Hin as [Hin|Hin]; [|apply IH, Hin].
    destruct (step_requests ev st) as [E|[text E]]; rewrite E in Hin.
    + apply elem_of_nil in Hin. contradiction.
    + apply list_elem_of_singleton in Hin. subst req. cbn [req_conversation].
      apply formatConversationHistory_prefix, messages_append_only, Hrest.
Qed.

Lemma request_history_is_prefix_witness :
  let evs := flat_map submission_events two_submissions in
  [mkConversationMessage (Some role_user) (lit "I was flying") None]
    `prefix_of` formatConversationHistory (messages (run evs fresh_session).1).
Proof.
  cbn zeta.
  apply (request_history_is_prefix (flat_map submission_events two_submissions)
           fresh_session
           (mkChatRequest (lit "I was flying")
              [mkConversationMessage (Some role_user) (lit "I was flying") None])).
  - repeat constructor; discriminate.
  - vm_compute. constructor.
Defined.

(** ** More on the voice controller *)

Lemma step_stopRecording ev st :
  Inv st -> handle ev st = stopRecording st ->
  isRecording (step ev st).1 = false /\ timers (step ev st).1 = ∅ /\
  retryTimeoutRef (step ev st).1 = None.
Proof.
  intros HI E. rewrite step_unfold, E. cbn [fst].
  destruct (persist_frame st (stopRecording st).1)
    as (_ & _ & _ & _ & -> & _ & _ & -> & _ & _ & -> & _).
  destruct (stopRecording_clears st HI) as (? & ? & ?). auto.
Qed.

(** X22. The audio-end path of silence detection: in every session with
    a recognition object, an audio-end signal 3000 ms or more after the
    last sound leaves the session not recording, with no timer. *)
Theorem audio_end_stops_after_silence
    (supported ctor_ok : bool) (t0 : Z) (stored : option (list Message))
    (evs : list Event) (h : Handlers) (now : Z) :
  let st := (session supported ctor_ok t0 stored evs).1 in
  recognitionRef st = Some h ->
  3000 <= now - lastSoundTimestampRef st ->
  let r := step (RecAudioEnd now) st in
  isRecording r.1 = false /\ timers r.1 = ∅ /\ retryTimeoutRef r.1 = None.
Proof.
  cbn zeta. intros Hh Hs. apply step_stopRecording.
  - apply Inv_session.
  - cbn [handle]. unfold recognition_event, read. rewrite Hh.
    apply onaudioend_stops, Hs.
Qed.

Lemma audio_end_stops_after_silence_witness :
  let r := step (RecAudioEnd 3000)
             (session true true 0 None [ToggleClicked false true false; RecStart 0]).1 in
  isRecording r.1 = false /\ timers r.1 = ∅ /\ retryTimeoutRef r.1 = None.
Proof.
  apply (audio_end_stops_after_silence true true 0 None
           [ToggleClicked false true false; RecStart 0] (mkHandlers false) 3000).
  - reflexivity.
  - vm_compute. discriminate.
Defined.

(** X23. In every session with a recognition object, an error that is
    neither 'not-allowed' nor 'network' leaves the session not
    recording, with no timer and no restart pending. *)
Theorem other_errors_stop
    (supported ctor_ok : bool) (t0 : Z) (stored : option (list Message))
    (evs : list Event) (h : Handlers) (now : Z) (error : jsstring) :
  let st := (session supported ctor_ok t0 stored evs).1 in
  recognitionRef st = Some h ->
  error <> lit "not-allowed" -> error <> lit "network" ->
  let r := step (RecError now error) st in
  isRecording r.1 = false /\ timers r.1 = ∅ /\ retryTimeoutRef r.1 = None.
Proof.
  cbn zeta. intros Hh H1 H2. apply step_stopRecording.
  - apply Inv_session.
  - cbn [handle]. unfold recognition_event, read. rewrite Hh.
    rewrite (onerror_other h now error H1 H2). reflexivity.
Qed.

Lemma other_errors_stop_witness :
  let r := step (RecError 40 (lit "no-speech"))
             (session true true 0 None
                [ToggleClicked false true false; RecStart 0;
                 RecError 20 (lit "network")]).1 in
  isRecording r.1 = false /\ timers r.1 = ∅ /\ retryTimeoutRef r.1 = None.
Proof.
  apply (other_errors_stop true true 0 None
           [ToggleClicked false true false; RecStart 0; RecError 20 (lit "network")]
           (mkHandlers false) 40 (lit "no-speech")).
  - reflexivity.
  - vm_compute. discriminate.
  - vm_compute. discriminate.
Defined.

(** X24. A network error arms the restart one second ahead: in every
    session with a recognition object, after a 'network' error at
    [now] the restart timeout held in [retryTimeoutRef] is in the timer
    table and due at [now + 1000], the timeout the ref held before is
    gone, and the recording flag is as it was. *)
Theorem network_error_arms_restart
    (st : State) (h : Handlers) (now : Z) :
  recognitionRef st = Some h ->
  let r := step (RecError now (lit "network")) st in
  retryTimeoutRef r.1 = Some (next_timer st) /\
  timers r.1 !! next_timer st =
    Some (mkTimer RetryRestart (closed_isRecording h) (now + 1000)) /\
  (forall i, retryTimeoutRef st = Some i -> i <> next_timer st ->
             timers r.1 !! i = None) /\
  isRecording r.1 = isRecording st /\ r.2 = [].
Proof.
  intros Hh. cbn zeta. rewrite step_unfold. cbn [handle fst snd].
  destruct (persist_frame st (recognition_event
              (fun h => onerror h now (lit "network")) st).1)
    as (_ & _ & _ & _ & -> & _ & _ & -> & _ & _ & -> & _).
  unfold recognition_event, read. rewrite Hh.
  change (onerror h now (lit "network")) with
    (read retryTimeoutRef (fun r =>
       match r with Some i => clearTimer i | None => skip end) ;;
     setTimer (mkTimer RetryRestart (closed_isRecording h) (now + 1000)) (fun i =>
       modify (fun st => with_retryTimeoutRef st (Some i)))).
  destruct st as [ms mi inp ld rec sup rr rt sl last tm nx sto].
  destruct rt as [j|];
    unfold seq, read, clearTimer, setTimer, modify, skip,
      with_timers, with_retryTimeoutRef;
    cbn [fst snd retryTimeoutRef timers next_timer isRecording app].
  - rewrite lookup_insert_eq. repeat split; auto.
    intros i [= <-] Hne. rewrite lookup_insert_ne by congruence.
    apply lookup_delete_eq.
  - rewrite lookup_insert_eq. repeat split; auto. discriminate.
Qed.

Lemma network_error_arms_restart_witness :
  let r := step (RecError 600 (lit "network")) after_two_network_errors in
  retryTimeoutRef r.1 = Some 4%positive /\
  timers r.1 !! 4%positive = Some (mkTimer RetryRestart false 1600) /\
  timers r.1 !! 3%positive = None.
Proof.
  cbn zeta.
  destruct (network_error_arms_restart after_two_network_errors
              (mkHandlers false) 600) as (H1 & H2 & H3 & _).
  - reflexivity.
  - split; [exact H1|]. split; [exact H2|].
    apply H3; [reflexivity|discriminate].
Defined.

(** X25. The restart timeout leaves its id behind: when the timeout
    held in [retryTimeoutRef] runs and the restart does not throw, the
    timeout is gone from the table but the ref still holds its id, so
    an end event of the recognition object that follows is ignored. *)
Theorem end_is_ignored_after_restart_timeout
    (st : State) (i : positive) (t : Timer) (now : Z) :
  timers st !! i = Some t -> kind t = RetryRestart -> due t <= now ->
  retryTimeoutRef st = Some i ->
  let s1 := (step (TimerFired i now restart_ok) st).1 in
  timers s1 !! i = None /\ retryTimeoutRef s1 = Some i /\
  isRecording s1 = isRecording st /\
  step RecEnd s1 = (s1, []).
Proof.
  intros Ht Hk Hd Hr. cbn zeta.
  assert (E : (step (TimerFired i now restart_ok) st).1 =
              with_timers st (delete i (timers st)) (next_timer st)).
  { rewrite step_unfold. cbn [handle fst]. unfold fireTimer, read.
    rewrite Ht, Hk, (proj2 (Z.ltb_ge now (due t)) Hd).
    unfold retryRestart, seq, clearTimer, modify.
    destruct (timer_isRecording t); cbn; apply persist_same_identity; reflexivity. }
  rewrite E. unfold with_timers at 1 2 3.
  cbn [timers retryTimeoutRef isRecording].
  rewrite lookup_delete_eq. repeat split; auto.
  rewrite step_unfold. cbn [handle]. unfold recognition_event, read, onend.
  unfold with_timers. cbn [recognitionRef retryTimeoutRef].
  destruct (recognitionRef st); rewrite ?Hr; cbn [skip fst snd];
    rewrite persist_same; reflexivity.
Qed.

Lemma end_is_ignored_after_restart_timeout_witness :
  let s1 := (step (TimerFired 3 1600 restart_ok) after_two_network_errors).1 in
  timers s1 !! 3%positive = None /\ retryTimeoutRef s1 = Some 3%positive /\
  isRecording s1 = true /\ step RecEnd s1 = (s1, []).
Proof.
  apply (end_is_ignored_after_restart_timeout after_two_network_errors
           3%positive (mkTimer RetryRestart false 1600) 1600);
    solve [reflexivity | vm_compute; discriminate].
Defined.
